(** * botic/validator: the validation and sanitization chain engine

    A shallow embedding of [lib/validator.js] (release 2.1.0, the revision
    with [hasUnvalidatedProperties] and the two-argument [optional]) and the
    properties of its chain engine.

    The JavaScript heap is explicit: a [Validation] object and its [messages]
    array live at locations of a store, the session keeps a location per
    field name, and the chain a caller holds is either such a location or a
    [VoidValidation].  Numbers are IEEE 754 doubles, the kernel's [float].
    What the program takes from its environment (Ringo's [strings] and
    [dates] modules, and the coercions of ECMAScript on strings, numbers and
    objects that have no closed form) is the interface [Host]. *)

From Stdlib Require Import ZArith Ascii String.
From Stdlib Require Import Floats.PrimFloat Floats.SpecFloat Floats.FloatOps.
From stdpp Require Import gmap strings list.

Local Open Scope Z_scope.

(* stdpp's set_solver clears hypotheses by name *)
#[local] Set Warnings "-clear-no-such-hyp".

(** ** ECMAScript values *)

Definition loc := positive.

(** A primitive value, or an object known by its identity only (an array, a
    [Date], a function, ... found in the validated object). *)
Inductive val :=
  | VUndefined
  | VNull
  | VBool (b : bool)
  | VNum (n : float)
  | VStr (s : string)
  | VObj (o : loc).

(** What a call may raise: [TypeError] (a property read or a call on
    [undefined]), [new Error(msg)], or whatever a caller's function throws. *)
Inductive exn :=
  | TypeError
  | Error (msg : string)
  | Thrown (v : val).

Inductive outcome (A : Type) :=
  | Return (a : A)
  | Throw (e : exn).
Arguments Return {A} a.
Arguments Throw {A} e.

(** A function argument ([func] of [passes], [converter] of [toValue]):
    [typeof arg === "function"] or not. *)
Inductive callable :=
  | Function (f : val → outcome val)
  | NotFunction (v : val).

(** ** Numbers *)

(** The Number value for a mathematical integer (round to nearest, ties to
    even). *)
Definition Z_to_float (z : Z) : float :=
  SF2Prim (binary_normalize 53 1024 z 0 false).

(** Truncation of a finite number towards zero; [None] for NaN and the
    infinities. *)
Definition float_trunc (x : float) : option Z :=
  match Prim2SF x with
  | S754_zero _ => Some 0
  | S754_finite sg m e =>
      let a := if 0 <=? e then Zpos m * 2 ^ e else Zpos m / 2 ^ (- e) in
      Some (if sg then - a else a)
  | _ => None
  end.

(** A finite number with no fractional part. *)
Definition float_is_integer (x : float) : bool :=
  match Prim2SF x with
  | S754_zero _ => true
  | S754_finite _ m e => (0 <=? e) || (Zpos m mod 2 ^ (- e) =? 0)
  | _ => false
  end.

(** [Number.isSafeInteger] on a number. *)
Definition float_is_safe_integer (x : float) : bool :=
  float_is_integer x && PrimFloat.leb (PrimFloat.abs x) (Z_to_float (2 ^ 53 - 1)).

(** ToInt32. *)
Definition ToInt32 (x : float) : Z :=
  match float_trunc x with
  | None => 0
  | Some z => let m := z mod 2 ^ 32 in if 2 ^ 31 <=? m then m - 2 ^ 32 else m
  end.

(** ** Strings

    A character of a [string] stands for the UTF-16 code unit of the same
    number, so [String.length] is the [length] property. *)

Definition str_length (s : string) : val :=
  VNum (Z_to_float (Z.of_nat (String.length s))).

(** WhiteSpace and LineTerminator code units (up to U+00FF). *)
Definition is_whitespace (a : ascii) : bool :=
  let n := Z.of_nat (nat_of_ascii a) in
  ((9 <=? n) && (n <=? 13)) || (n =? 32) || (n =? 160).

Fixpoint trim_left (s : string) : string :=
  match s with
  | String a r => if is_whitespace a then trim_left r else s
  | EmptyString => EmptyString
  end.

Fixpoint string_rev_onto (s acc : string) : string :=
  match s with
  | String a r => string_rev_onto r (String a acc)
  | EmptyString => acc
  end.

(** [String.prototype.trim]. *)
Definition trim (s : string) : string :=
  string_rev_onto (trim_left (string_rev_onto (trim_left s) EmptyString)) EmptyString.

(** Comparison of strings by code units ([<] on two strings). *)
Fixpoint string_ltb (a b : string) : bool :=
  match a, b with
  | _, EmptyString => false
  | EmptyString, String _ _ => true
  | String x a', String y b' =>
      let nx := nat_of_ascii x in
      let ny := nat_of_ascii y in
      if (nx <? ny)%nat then true
      else if (ny <? nx)%nat then false
      else string_ltb a' b'
  end.

(** The digit a character stands for in [parseInt]. *)
Definition digit_of (a : ascii) : option Z :=
  let n := Z.of_nat (nat_of_ascii a) in
  if (48 <=? n) && (n <=? 57) then Some (n - 48)
  else if (97 <=? n) && (n <=? 122) then Some (n - 87)
  else if (65 <=? n) && (n <=? 90) then Some (n - 55)
  else None.

(** The value of the longest prefix of radix-[R] digits; [acc] is [None]
    until a digit was read. *)
Fixpoint parse_digits (R : Z) (s : string) (acc : option Z) : option Z :=
  match s with
  | String a r =>
      match digit_of a with
      | Some d =>
          if d <? R then parse_digits R r (Some (default 0 acc * R + d))
          else acc
      | None => acc
      end
  | EmptyString => acc
  end.

Definition has_hex_prefix (s : string) : bool :=
  match s with
  | String "0" (String ("x" | "X") _) => true
  | _ => false
  end%char.

(** [parseInt(string, radix)] on a string. *)
Definition parseInt_string (s : string) (radix : float) : float :=
  let s1 := trim_left s in
  let '(neg, s2) :=
    match s1 with
    | String "-"%char r => (true, r)
    | String "+"%char r => (false, r)
    | _ => (false, s1)
    end in
  let R := ToInt32 radix in
  if negb (R =? 0) && ((R <? 2) || (36 <? R)) then nan
  else
    let strip := ((R =? 0) || (R =? 16)) && has_hex_prefix s2 in
    let R' := if strip then 16 else if R =? 0 then 10 else R in
    let s3 := if strip then String.substring 2 (String.length s2 - 2)%nat s2 else s2 in
    match parse_digits R' s3 None with
    | None => nan
    | Some n => if neg then PrimFloat.opp (Z_to_float n) else Z_to_float n
    end.

(** ** The environment *)

Class Host := {
  (** [ringo/utils/strings] *)
  strings_isAlpha : string → bool;
  strings_isAlphanumeric : string → bool;
  strings_isDateFormat : string → bool;
  strings_isEmail : string → bool;
  strings_isFileName : string → bool;
  strings_isFloat : string → bool;
  strings_isHexColor : string → bool;
  strings_isInt : string → bool;
  strings_isNumeric : string → bool;
  strings_isUrl : string → bool;
  (** [ringo/utils/dates]: [parse(string, format, locale, timezone, lenient)],
      a [Date] or [NaN] *)
  dates_parse : val → val → val → val → val → val;
  (** ToNumber on a string *)
  StringToNumber : string → float;
  (** ToString on a finite number other than zero *)
  NumberToString : float → string;
  (** ToPrimitive and ToString on an object *)
  ObjectToPrimitive : loc → val;
  ObjectToString : loc → string;
  (** [parseFloat] on a string *)
  parseFloat_string : string → float;
  (** the property names every plain object inherits from
      [Object.prototype] ([toString], [constructor], ...) *)
  on_prototype : string → bool;
  (** the value of such a property, [Object.prototype[name]] *)
  prototype_value : string → val;
  (** [f(arg)] for an object [f] found in the validated object and called
      as a method of that: what the function returns or throws, a
      [TypeError] when [f] is no function *)
  ObjectCall : loc → val → outcome val;
}.

(** ** Operators of the language *)

Section operators.
Context `{!Host}.

(** [typeof v === "string"], [typeof v === "number"] *)
Definition is_string (v : val) : bool :=
  match v with VStr _ => true | _ => false end.

Definition is_number (v : val) : bool :=
  match v with VNum _ => true | _ => false end.

(** [a === b] *)
Definition strict_equal (a b : val) : bool :=
  match a, b with
  | VUndefined, VUndefined => true
  | VNull, VNull => true
  | VBool x, VBool y => Bool.eqb x y
  | VNum x, VNum y => PrimFloat.eqb x y
  | VStr x, VStr y => String.eqb x y
  | VObj x, VObj y => Pos.eqb x y
  | _, _ => false
  end.

(** [v == null] *)
Definition is_nullish (v : val) : bool :=
  match v with VUndefined | VNull => true | _ => false end.

(** ToBoolean; [!v] is its negation. *)
Definition ToBoolean (v : val) : bool :=
  match v with
  | VUndefined | VNull => false
  | VBool b => b
  | VNum n => negb (PrimFloat.is_zero n || PrimFloat.is_nan n)
  | VStr s => negb (String.eqb s "")
  | VObj _ => true
  end.

(** ToPrimitive: the identity but on an object. *)
Definition ToPrimitive (v : val) : val :=
  match v with VObj o => ObjectToPrimitive o | _ => v end.

(** ToNumber. *)
Definition ToNumber_primitive (v : val) : float :=
  match v with
  | VUndefined => nan
  | VNull => 0%float
  | VBool b => if b then 1%float else 0%float
  | VNum n => n
  | VStr s => StringToNumber s
  | VObj _ => nan
  end.

Definition ToNumber (v : val) : float := ToNumber_primitive (ToPrimitive v).

(** ToString. *)
Definition ToString (v : val) : string :=
  match v with
  | VUndefined => "undefined"
  | VNull => "null"
  | VBool b => if b then "true" else "false"
  | VNum n =>
      if PrimFloat.is_nan n then "NaN"
      else if PrimFloat.is_zero n then "0"
      else if PrimFloat.eqb n infinity then "Infinity"
      else if PrimFloat.eqb n neg_infinity then "-Infinity"
      else NumberToString n
  | VStr s => s
  | VObj o => ObjectToString o
  end.

(** [a == b] on primitive values. *)
Definition loose_equal_primitive (a b : val) : bool :=
  match a, b with
  | (VUndefined | VNull), (VUndefined | VNull) => true
  | (VUndefined | VNull), _ | _, (VUndefined | VNull) => false
  | VStr x, VStr y => String.eqb x y
  | VObj x, VObj y => Pos.eqb x y
  | VObj _, _ | _, VObj _ => false
  | _, _ => PrimFloat.eqb (ToNumber_primitive a) (ToNumber_primitive b)
  end.

(** [a == b]: two objects by identity, an object against a primitive
    through ToPrimitive. *)
Definition loose_equal (a b : val) : bool :=
  match a, b with
  | VObj x, VObj y => Pos.eqb x y
  | VObj _, (VUndefined | VNull) | (VUndefined | VNull), VObj _ => false
  | _, _ => loose_equal_primitive (ToPrimitive a) (ToPrimitive b)
  end.

(** The abstract relational comparison [a < b]: [None] is its
    [undefined] (a NaN operand). *)
Definition less_than (a b : val) : option bool :=
  match ToPrimitive a, ToPrimitive b with
  | VStr x, VStr y => Some (string_ltb x y)
  | pa, pb =>
      let na := ToNumber_primitive pa in
      let nb := ToNumber_primitive pb in
      if PrimFloat.is_nan na || PrimFloat.is_nan nb then None
      else Some (PrimFloat.ltb na nb)
  end.

(** [a < b], [a > b], [a <= b], [a >= b] *)
Definition js_lt (a b : val) : bool := bool_decide (less_than a b = Some true).
Definition js_gt (a b : val) : bool := bool_decide (less_than b a = Some true).
Definition js_le (a b : val) : bool := bool_decide (less_than b a = Some false).
Definition js_ge (a b : val) : bool := bool_decide (less_than a b = Some false).

(** [Number.isNaN(v)], [Number.isSafeInteger(v)] *)
Definition Number_isNaN (v : val) : bool :=
  match v with VNum n => PrimFloat.is_nan n | _ => false end.

Definition Number_isSafeInteger (v : val) : bool :=
  match v with VNum n => float_is_safe_integer n | _ => false end.

(** [parseInt(v, radix)], [parseFloat(v)] *)
Definition parseInt (v radix : val) : float :=
  parseInt_string (ToString v) (ToNumber radix).

Definition parseFloat (v : val) : float := parseFloat_string (ToString v).

End operators.

(** ** The store *)

(** A [Validation] instance: the five properties its constructor defines.
    [messages] is the location of its array. *)
Record Validation := mkValidation {
  key : string;
  value : val;
  stopOnFail : bool;
  isValid : bool;
  messages : loc;
}.

Inductive object :=
  | OValidation (V : Validation)
  | OArray (elements : list val).

(** A [Validator] instance ([obj], the object to validate, and
    [validations], a location per key) and the heap it works on.  A plain
    object is the finite map of its own properties; the key [__proto__] is
    taken as any other, and an own property [hasOwnProperty] hides the
    method of that name (see [hasOwnProperty] below). *)
Record State := mkState {
  obj : gmap string val;
  validations : gmap string loc;
  heap : gmap loc object;
}.

Definition set_heap (h : gmap loc object) (s : State) : State :=
  {| obj := obj s; validations := validations s; heap := h |}.

Definition set_validations (m : gmap string loc) (s : State) : State :=
  {| obj := obj s; validations := m; heap := heap s |}.

(** Computations on the store.  A raised exception leaves the store as it
    was when it was raised. *)
Definition M (A : Type) : Type := State → outcome A * State.

Definition ret {A} (a : A) : M A := λ s, (Return a, s).

Definition throw {A} (e : exn) : M A := λ s, (Throw e, s).

Definition bind {A B} (m : M A) (k : A → M B) : M B :=
  λ s, match m s with
       | (Return a, s') => k a s'
       | (Throw e, s') => (Throw e, s')
       end.

#[global] Instance M_ret : MRet M := @ret.
#[global] Instance M_bind : MBind M := λ A B k m, bind m k.

(** The outcome of a pure computation, in the store. *)
Definition lift {A} (r : outcome A) : M A := λ s, (r, s).

Definition gets {A} (f : State → A) : M A := λ s, (Return (f s), s).

Definition modify (f : State → State) : M unit := λ s, (Return (), f s).

(** A new object, at an unused location. *)
Definition alloc (o : object) : M loc :=
  λ s, let l := fresh (dom (heap s)) in (Return l, set_heap (<[l := o]> (heap s)) s).

(** The [Validation] at [this]. *)
Definition read (this : loc) : M Validation :=
  λ s, match heap s !! this with
       | Some (OValidation V) => (Return V, s)
       | _ => (Throw TypeError, s)
       end.

(** [this.value = v] and [this.isValid = b] on the [Validation] at
    [this]. *)
Definition with_value (v : val) (V : Validation) : Validation :=
  mkValidation (key V) v (stopOnFail V) (isValid V) (messages V).

Definition with_isValid (b : bool) (V : Validation) : Validation :=
  mkValidation (key V) (value V) (stopOnFail V) b (messages V).

Definition set_value (this : loc) (v : val) : M unit :=
  λ s, match heap s !! this with
       | Some (OValidation V) =>
           (Return (), set_heap (<[this := OValidation (with_value v V)]> (heap s)) s)
       | _ => (Throw TypeError, s)
       end.

Definition set_isValid (this : loc) (b : bool) : M unit :=
  λ s, match heap s !! this with
       | Some (OValidation V) =>
           (Return (), set_heap (<[this := OValidation (with_isValid b V)]> (heap s)) s)
       | _ => (Throw TypeError, s)
       end.

(** [array.push(x)] *)
Definition push (a : loc) (x : val) : M unit :=
  λ s, match heap s !! a with
       | Some (OArray l) => (Return (), set_heap (<[a := OArray (l ++ [x])]> (heap s)) s)
       | _ => (Throw TypeError, s)
       end.

(** [array.slice()] *)
Definition slice (a : loc) : M loc :=
  λ s, match heap s !! a with
       | Some (OArray l) => alloc (OArray l) s
       | _ => (Throw TypeError, s)
       end.

(** The elements of the array at [a]. *)
Definition elements_at (s : State) (a : loc) : option (list val) :=
  match heap s !! a with
  | Some (OArray l) => Some l
  | _ => None
  end.

(** ** Chains *)

(** What a method of a chain returns: a [Validation] (by location), or a
    [VoidValidation], which has the one property [value] and no method that
    assigns it. *)
Inductive chain :=
  | Active (this : loc)
  | Void (v : val).

(** The validating methods, each with its arguments but the trailing
    [message]. *)
Inductive predicate :=
  | hasLength (length : val)
  | hasLengthBetween (minLength maxLength : val)
  | hasMaxLength (maxLength : val)
  | hasMinLength (minLength : val)
  | hasValue
  | isAlpha
  | isAlphanumeric
  | isDateFormat
  | isDefined
  | isEmail
  | isEqual (o : val)
  | isFalse
  | isFileName
  | isFloat
  | isGreaterThan (right : val)
  | isHexColor
  | isInt
  | isLessThan (right : val)
  | isNaN
  | isNotNaN
  | isNull
  | isNotNull
  | isNumeric
  | isNumber
  | isStrictEqual (o : val)
  | isStrictNotNull
  | isStrictNull
  | isString
  | isTrue
  | isUrl
  | matches (regex : string → bool)
  | passes (func : callable).

(** The converting methods. *)
Inductive sanitizer :=
  | toBoolean (strictTrue : val)
  | toDate (format locale timezone lenient : val)
  | toFloat
  | toInt (radix : val)
  | toValue (converter : callable).

(** A chainable method call. *)
Inductive method :=
  | Predicate (p : predicate) (message : val)
  | Sanitizer (f : sanitizer)
  | optional (defaultValue strict : val).

(** ** [Validation.prototype] *)

Module Validation.
Section methods.
Context `{!Host}.

(** [new Validation(key, value, stopOnFail)] *)
Definition new (key : string) (value : val) (stopOnFail : bool) : M loc :=
  a ← alloc (OArray []);
  alloc (OValidation (mkValidation key value stopOnFail true a)).

(** [checkResult(validationObj, passes, message)] *)
Definition checkResult (validationObj : loc) (passes : bool) (message : val) : M chain :=
  if passes then mret (Active validationObj)
  else
    set_isValid validationObj false;;
    V ← read validationObj;
    push (messages V) message;;
    if stopOnFail V then mret (Void (value V))
    else mret (Active validationObj).

(** The condition a validating method hands to [checkResult], on the value
    [v] of [this]. *)
Definition condition (p : predicate) (v : val) : outcome bool :=
  match p with
  | hasLength length =>
      Return (match v with VStr s => strict_equal (str_length s) length | _ => false end)
  | hasLengthBetween minLength maxLength =>
      Return (match v with
              | VStr s => js_ge (str_length s) minLength && js_le (str_length s) maxLength
              | _ => false
              end)
  | hasMaxLength maxLength =>
      Return (match v with VStr s => js_le (str_length s) maxLength | _ => false end)
  | hasMinLength minLength =>
      Return (match v with VStr s => js_ge (str_length s) minLength | _ => false end)
  | hasValue =>
      Return (negb (is_nullish v) &&
              match v with VStr s => js_gt (str_length s) (VNum 0) | _ => true end)
  | isAlpha =>
      Return (match v with VStr s => strings_isAlpha s | _ => false end)
  | isAlphanumeric =>
      Return (match v with VStr s => strings_isAlphanumeric s | _ => false end)
  | isDateFormat =>
      Return (match v with VStr s => strings_isDateFormat s | _ => false end)
  | isDefined => Return (negb (strict_equal v VUndefined))
  | isEmail =>
      Return (match v with VStr s => strings_isEmail s | _ => false end)
  | isEqual o => Return (loose_equal v o)
  | isFalse => Return (strict_equal v (VBool false))
  | isFileName =>
      Return (match v with VStr s => strings_isFileName s | _ => false end)
  | isFloat =>
      Return (match v with
              | VStr s => strings_isFloat s
              | VNum n => negb (float_is_integer n)
              | _ => false
              end)
  | isGreaterThan rhs => Return (js_gt v rhs)
  | isHexColor =>
      Return (match v with VStr s => strings_isHexColor s | _ => false end)
  | isInt =>
      Return (match v with VStr s => strings_isInt s | _ => false end
              || Number_isSafeInteger v)
  | isLessThan rhs => Return (js_lt v rhs)
  | isNaN => Return (Number_isNaN v)
  | isNotNaN => Return (negb (Number_isNaN v))
  | isNull => Return (is_nullish v)
  | isNotNull => Return (negb (is_nullish v))
  | isNumeric =>
      Return (is_number v ||
              match v with VStr s => strings_isNumeric s | _ => false end)
  | isNumber =>
      Return (is_number v ||
              match v with VStr s => strings_isFloat s || strings_isInt s | _ => false end)
  | isStrictEqual o => Return (strict_equal v o)
  | isStrictNotNull => Return (negb (strict_equal v VNull))
  | isStrictNull => Return (strict_equal v VNull)
  | isString => Return (is_string v)
  | isTrue => Return (strict_equal v (VBool true))
  | isUrl =>
      Return (match v with VStr s => strings_isUrl s | _ => false end)
  | matches regex => Return (regex (ToString v))
  | passes func =>
      match func with
      | NotFunction _ => Throw (Error "Validator function argument is not a function!")
      | Function f =>
          match f v with
          | Return r => Return (strict_equal r (VBool true))
          | Throw e => Throw e
          end
      end
  end.

(** A validating method: [return checkResult(this, <condition>, message)]. *)
Definition validating (this : loc) (p : predicate) (message : val) : M chain :=
  V ← read this;
  passed ← lift (condition p (value V));
  checkResult this passed message.

(** The value a converting method assigns to [this.value], from the value
    [v] it finds there. *)
Definition conversion (f : sanitizer) (v : val) : outcome val :=
  match f with
  | toBoolean strictTrue =>
      if ToBoolean strictTrue
      then Return (VBool (strict_equal v (VStr "1") || strict_equal v (VStr "true")))
      else Return (VBool (negb (strict_equal v VNull) && negb (strict_equal v VUndefined) &&
                          negb (strict_equal v (VStr "0")) &&
                          negb (strict_equal v (VStr "false")) &&
                          negb (strict_equal v (VStr ""))))
  | toDate format locale timezone lenient =>
      Return (dates_parse v format locale timezone lenient)
  | toFloat =>
      let v1 := match v with
                | VStr s => if strings_isFloat s then v else VNum nan
                | _ => v
                end in
      Return (VNum (parseFloat v1))
  | toInt radix =>
      let v1 := match v with
                | VStr s => if strings_isInt s then v else VNum nan
                | _ => v
                end in
      Return (VNum (parseInt v1 (if ToBoolean radix then radix else VNum 10%float)))
  | toValue converter =>
      match converter with
      | NotFunction _ => Throw (Error "Validator function argument is not a function!")
      | Function f => f v
      end
  end.

(** A converting method: [this.value = <conversion>; return this]. *)
Definition converting (this : loc) (f : sanitizer) : M chain :=
  V ← read this;
  v ← lift (conversion f (value V));
  set_value this v;;
  mret (Active this).

(** [Validation.prototype.optional] *)
Definition optional_ (this : loc) (defaultValue strict : val) : M chain :=
  V ← read this;
  if (strict_equal strict (VBool true) && strict_equal (value V) VUndefined)
     || (negb (strict_equal strict (VBool true)) && negb (ToBoolean (value V)))
  then
    set_value this defaultValue;;
    mret (Void defaultValue)
  else mret (Active this).

(** [Validation.prototype.getValue] *)
Definition getValue (this : loc) : M val :=
  V ← read this;
  mret (value V).

(** The method [m] of [Validation.prototype], called on [this]. *)
Definition call (this : loc) (m : method) : M chain :=
  match m with
  | Predicate p message => validating this p message
  | Sanitizer f => converting this f
  | optional defaultValue strict => optional_ this defaultValue strict
  end.

End methods.
End Validation.

(** ** [VoidValidation.prototype]

    Every enumerable method of [Validation.prototype] is there under its
    name: [getValue] as it is, any other as [voidCheck]. *)

Module VoidValidation.

(** [voidCheck]: [return this], whatever the arguments. *)
Definition voidCheck (v : val) : M chain := mret (Void v).

Definition getValue (v : val) : M val := mret v.

Definition call (v : val) (m : method) : M chain := voidCheck v.

End VoidValidation.

(** A method call on a chain, and [getValue()] on it. *)
Definition invoke `{!Host} (c : chain) (m : method) : M chain :=
  match c with
  | Active this => Validation.call this m
  | Void v => VoidValidation.call v m
  end.

Definition chain_getValue (c : chain) : M val :=
  match c with
  | Active this => Validation.getValue this
  | Void v => VoidValidation.getValue v
  end.

(** The calls [ms], chained from left to right on [c]. *)
Fixpoint invoke_all `{!Host} (c : chain) (ms : list method) : M chain :=
  match ms with
  | [] => mret c
  | m :: ms' => c' ← invoke c m; invoke_all c' ms'
  end.

(** ** The revision before release 2.0.0

    There [VoidValidation.prototype] kept, besides [getValue], the methods
    whose name starts with "to": a converting method ran on the
    [VoidValidation] and assigned its [value]; any other method returned
    [this]. *)

Module Release1.

Definition call `{!Host} (v : val) (m : method) : M chain :=
  match m with
  | Sanitizer f => v' ← lift (Validation.conversion f v); mret (Void v')
  | _ => mret (Void v)
  end.

End Release1.

(** ** [Validator] *)

(** [o.hasOwnProperty(key)] on a plain object [o] used as a map.  The
    method is the one of [Object.prototype], which tells whether [key] is
    an own property, unless [o] has an own property named [hasOwnProperty]:
    then [o.hasOwnProperty] is that property, and [call f key] is what
    calling it gives. *)
Definition hasOwnProperty {A} (call : A → string → outcome val)
    (o : gmap string A) (key : string) : outcome val :=
  match o !! "hasOwnProperty" with
  | None => Return (VBool (bool_decide (is_Some (o !! key))))
  | Some f => call f key
  end.

(** What [getMessages] returns: an array (by location), [undefined], or a
    new object with an array per key. *)
Inductive messages_result :=
  | MArray (a : loc)
  | MUndefined
  | MObject (m : gmap string loc).

Module Validator.

(** [new Validator(objectToValidate)], in a store of its own. *)
Definition new (objectToValidate : gmap string val) : State :=
  {| obj := objectToValidate; validations := ∅; heap := ∅ |}.

(** [f(key)] for a property [f] of the object to validate: a primitive
    value is no function. *)
Definition call_value `{!Host} (f : val) (key : string) : outcome val :=
  match f with
  | VObj o => ObjectCall o (VStr key)
  | _ => Throw TypeError
  end.

(** [f(key)] for a property [f] of [this.validations]: a [Validation] is no
    function. *)
Definition call_validation (f : loc) (key : string) : outcome val :=
  Throw TypeError.

(** [this.obj[key]]: the own property, or what the object inherits. *)
Definition get `{!Host} (o : gmap string val) (key : string) : val :=
  match o !! key with
  | Some v => v
  | None => if on_prototype key then prototype_value key else VUndefined
  end.

(** [own ? this.obj[key] : undefined], trimmed on request when it is a
    string; [own] is what [this.obj.hasOwnProperty(key)] returned. *)
Definition chosen_value `{!Host} (own : val) (o : gmap string val) (key : string)
    (trim_ : val) : val :=
  let value := if ToBoolean own then get o key else VUndefined in
  match value with
  | VStr str => if strict_equal trim_ (VBool true) then VStr (trim str) else value
  | _ => value
  end.

(** [this.addValidation(key, stopOnFail, trim)] *)
Definition addValidation `{!Host} (key : string) (stopOnFail : bool) (trim_ : val) :
    M chain :=
  own ← (λ s, (hasOwnProperty call_value (obj s) key, s));
  value ← gets (λ s, chosen_value own (obj s) key trim_);
  this ← Validation.new key value stopOnFail;
  modify (λ s, set_validations (<[key := this]> (validations s)) s);;
  mret (Active this).

(** Whether [addValidation] returns for [key]: it raises what
    [this.obj.hasOwnProperty(key)] raises. *)
Definition returns `{!Host} (o : gmap string val) (key : string) : bool :=
  match hasOwnProperty call_value o key with
  | Return _ => true
  | Throw _ => false
  end.

(** The value [addValidation] starts a chain with, where it returns. *)
Definition initial_value `{!Host} (o : gmap string val) (key : string) (trim_ : val) :
    val :=
  match hasOwnProperty call_value o key with
  | Return own => chosen_value own o key trim_
  | Throw _ => VUndefined
  end.

(** [validate(key, trim)] and [validateAll(key, trim)] *)
Definition validate `{!Host} (key : string) (trim_ : val) : M chain :=
  addValidation key true (VBool (strict_equal trim_ (VBool true))).

Definition validateAll `{!Host} (key : string) (trim_ : val) : M chain :=
  addValidation key false (VBool (strict_equal trim_ (VBool true))).

(** [hasUnvalidatedProperties()] *)
Definition hasUnvalidatedProperties (s : State) : bool :=
  let validationKeys := (map_to_list (validations s)).*1 in
  let objectKeys := (map_to_list (obj s)).*1 in
  if (length validationKeys <? length objectKeys)%nat then true
  else existsb (λ key, bool_decide (key ∉ validationKeys)) objectKeys.

(** [this.validations[key].isValid] for every key of the list, up to the
    first that is [false]. *)
Fixpoint every_isValid (s : State) (l : list (string * loc)) : outcome bool :=
  match l with
  | [] => Return true
  | (_, this) :: l' =>
      match heap s !! this with
      | Some (OValidation V) => if isValid V then every_isValid s l' else Return false
      | _ => Throw TypeError
      end
  end.

(** [hasFailures(name)]; [None] is a call without [name]. *)
Definition hasFailures (name : option string) (s : State) : outcome bool :=
  match name with
  | Some name =>
      match hasOwnProperty call_validation (validations s) name with
      | Throw e => Throw e
      | Return own =>
          if ToBoolean own then
            match validations s !! name ≫= (λ this, heap s !! this) with
            | Some (OValidation V) => Return (negb (isValid V))
            | _ => Throw TypeError
            end
          else Return true
      end
  | None =>
      match every_isValid s (map_to_list (validations s)) with
      | Return b => Return (negb b)
      | Throw e => Throw e
      end
  end.

(** [messages[key] = validation.messages.slice()] for the pairs of the
    list. *)
Fixpoint slice_all (l : list (string * loc)) : M (gmap string loc) :=
  match l with
  | [] => mret ∅
  | (key, this) :: l' =>
      V ← read this;
      a ← slice (messages V);
      m ← slice_all l';
      mret (<[key := a]> m)
  end.

(** [this.validations[key]] where [key] is no own property: what
    [Object.prototype] has under that name (which is no [Validation]), or
    [undefined]; and [.messages] of it. *)
Definition messages_of_missing `{!Host} (key : string) : M messages_result :=
  if on_prototype key then mret MUndefined else throw TypeError.

(** [getMessages(key)]; [None] is a call without [key]. *)
Definition getMessages `{!Host} (key : option string) : M messages_result :=
  match key with
  | Some key =>
      failed ← (λ s, (hasFailures (Some key) s, s));
      if failed : bool then
        registered ← gets (λ s, validations s !! key);
        match registered with
        | Some this => V ← read this; mret (MArray (messages V))
        | None => messages_of_missing key
        end
      else
        a ← alloc (OArray []);
        mret (MArray a)
  | None =>
      l ← gets (λ s, map_to_list (validations s));
      m ← slice_all l;
      mret (MObject m)
  end.

(** [getValue(key)]; [None] is a call without [key]. *)
Definition getValue (key : option string) (s : State) : outcome val :=
  match key with
  | None => Return VUndefined
  | Some key =>
      match validations s !! key with
      | Some this =>
          match heap s !! this with
          | Some (OValidation V) => Return (value V)
          | _ => Throw TypeError
          end
      | None => Throw TypeError
      end
  end.

(** [getValues()] *)
Fixpoint values_of (s : State) (l : list (string * loc)) : outcome (gmap string val) :=
  match l with
  | [] => Return ∅
  | (key, this) :: l' =>
      match heap s !! this with
      | Some (OValidation V) =>
          match values_of s l' with
          | Return m => Return (<[key := value V]> m)
          | Throw e => Throw e
          end
      | _ => Throw TypeError
      end
  end.

Definition getValues (s : State) : outcome (gmap string val) :=
  values_of s (map_to_list (validations s)).

End Validator.

(** ** Sessions *)

(** What the caller of a session may do to the store: start a chain, call a
    method on a chain, ask for messages (which makes arrays), and assign the
    elements of an array it holds. *)
Inductive action :=
  | DoValidate (key : string) (trim_ : val)
  | DoValidateAll (key : string) (trim_ : val)
  | DoCall (c : chain) (m : method)
  | DoGetMessages (key : option string)
  | DoAssign (a : loc) (elements : list val).

(** The caller's assignment to the array at [a]. *)
Definition assign (a : loc) (l : list val) (s : State) : State :=
  match heap s !! a with
  | Some (OArray _) => set_heap (<[a := OArray l]> (heap s)) s
  | _ => s
  end.

(** The store after an action, whether the call returned or raised: a
    call that raises leaves it as it was when it raised, so a [validate]
    that raises registers nothing. *)
Definition step `{!Host} (s : State) (act : action) : State :=
  match act with
  | DoValidate key trim_ => (Validator.validate key trim_ s).2
  | DoValidateAll key trim_ => (Validator.validateAll key trim_ s).2
  | DoCall c m => (invoke c m s).2
  | DoGetMessages key => (Validator.getMessages key s).2
  | DoAssign a l => assign a l s
  end.

Definition run `{!Host} (s : State) (acts : list action) : State :=
  foldl step s acts.

(** The keys for which [validate] or [validateAll] was called. *)
Fixpoint validated (acts : list action) : gset string :=
  match acts with
  | [] => ∅
  | DoValidate key _ :: acts' => {[key]} ∪ validated acts'
  | DoValidateAll key _ :: acts' => {[key]} ∪ validated acts'
  | _ :: acts' => validated acts'
  end.

(** The keys for which a call of [validate] or [validateAll] returned, on
    the object [o]. *)
Definition returned `{!Host} (o : gmap string val) (acts : list action) : gset string :=
  filter (λ key, Is_true (Validator.returns o key)) (validated acts).

(** A [Validation] is registered under the key [hasOwnProperty]:
    [this.validations.hasOwnProperty] is that one, and no function. *)
Definition shadowed (s : State) : bool :=
  bool_decide (is_Some (validations s !! "hasOwnProperty")).

(** The recorded state of the chain at [this]: its [isValid] and the
    elements of its [messages]. *)
Definition recorded (s : State) (this : loc) : option (bool * list val) :=
  match heap s !! this with
  | Some (OValidation V) =>
      match elements_at s (messages V) with
      | Some l => Some (isValid V, l)
      | None => None
      end
  | _ => None
  end.

(** The recorded state of the chain registered for a key. *)
Definition recorded_for (s : State) (key : string) : option (bool * list val) :=
  match validations s !! key with
  | Some this => recorded s this
  | None => None
  end.

(** ** A host to run examples on

    Shape tests on characters for the four simplest classes of
    [ringo/utils/strings] (the others answer [false]) and decimal numerals
    for the coercions. *)

Definition is_digit (a : ascii) : bool :=
  let n := nat_of_ascii a in (48 <=? n)%nat && (n <=? 57)%nat.

Definition is_letter (a : ascii) : bool :=
  let n := nat_of_ascii a in
  ((65 <=? n)%nat && (n <=? 90)%nat) || ((97 <=? n)%nat && (n <=? 122)%nat).

Fixpoint all_chars (p : ascii → bool) (s : string) : bool :=
  match s with
  | EmptyString => true
  | String a r => p a && all_chars p r
  end.

Definition nonempty_all (p : ascii → bool) (s : string) : bool :=
  negb (String.eqb s "") && all_chars p s.

(** An optional sign, then [0] or digits that do not start with [0]. *)
Definition sample_isInt (s : string) : bool :=
  let body := match s with
              | String ("-" | "+")%char r => r
              | _ => s
              end in
  match body with
  | String "0"%char r => String.eqb r ""
  | _ => nonempty_all is_digit body
  end.

Definition sample_number (s : string) : float :=
  if sample_isInt s then parseInt_string s 10%float else nan.

Definition SampleHost : Host := {|
  strings_isAlpha := nonempty_all is_letter;
  strings_isAlphanumeric := nonempty_all (λ a, is_letter a || is_digit a);
  strings_isDateFormat := λ _, false;
  strings_isEmail := λ _, false;
  strings_isFileName := λ _, false;
  strings_isFloat := λ _, false;
  strings_isHexColor := λ _, false;
  strings_isInt := sample_isInt;
  strings_isNumeric := nonempty_all is_digit;
  strings_isUrl := λ _, false;
  dates_parse := λ _ _ _ _ _, VNum nan;
  StringToNumber := sample_number;
  NumberToString := λ _, "1";
  ObjectToPrimitive := λ _, VStr "[object Object]";
  ObjectToString := λ _, "[object Object]";
  parseFloat_string := sample_number;
  on_prototype := λ k, bool_decide (k ∈ ["constructor"; "toString"; "valueOf"; "hasOwnProperty"]);
  prototype_value := λ _, VObj 1%positive;
  ObjectCall := λ _ _, Throw TypeError;
|}.

(** ** States named in the properties *)

(** The state a failed check leaves: [isValid] is [false] and [message] is
    the last element of [messages]. *)
Definition failed_state (s : State) (this : loc) (V : Validation) (l : list val)
    (message : val) : State :=
  set_heap (<[messages V := OArray (l ++ [message])]>
              (<[this := OValidation (with_isValid false V)]> (heap s))) s.

(** The state after [this.value = v]. *)
Definition assigned_state (s : State) (this : loc) (V : Validation) (v : val) : State :=
  set_heap (<[this := OValidation (with_value v V)]> (heap s)) s.

(** The locations [addValidation] takes for the array and for the
    [Validation], and the state it leaves. *)
Definition new_array (s : State) : loc := fresh (dom (heap s)).

Definition new_this (s : State) : loc :=
  fresh (dom (<[new_array s := OArray []]> (heap s))).

Definition started_state (s : State) (key : string) (v : val) (stopOnFail : bool) : State :=
  {| obj := obj s;
     validations := <[key := new_this s]> (validations s);
     heap := <[new_this s := OValidation (mkValidation key v stopOnFail true (new_array s))]>
               (<[new_array s := OArray []]> (heap s)) |}.


(** The chain of the README, [isInt(m1).toInt().isGreaterThan(17, "too
    young")], on [validate("age")]. *)
Definition age_chain (m1 : val) : list method :=
  [Predicate isInt m1; Sanitizer (toInt VUndefined);
   Predicate (isGreaterThan (VNum 17%float)) (VStr "too young")].

Definition validate_age `{!Host} (m1 : val) : M chain :=
  c ← Validator.validate "age" VUndefined; invoke_all c (age_chain m1).

(** ** The invariant of the store *)

(** Every [Validation] of the heap has its [messages] array in the heap. *)
Definition heap_ok (s : State) : Prop :=
  ∀ this V, heap s !! this = Some (OValidation V) →
            ∃ l, heap s !! messages V = Some (OArray l).

(** Moreover every registered location holds a [Validation]. *)
Definition wf (s : State) : Prop :=
  heap_ok s ∧
  ∀ key this, validations s !! key = Some this →
              ∃ V, heap s !! this = Some (OValidation V).

(** From [s] to [s']: the [Validator] is the same, a [Validation] is still
    one and has the same array, an array is still one. *)
Definition keeps (s s' : State) : Prop :=
  obj s' = obj s ∧ validations s' = validations s ∧
  ∀ l, match heap s !! l with
       | Some (OValidation V) =>
           ∃ V', heap s' !! l = Some (OValidation V') ∧ messages V' = messages V
       | Some (OArray _) => ∃ e, heap s' !! l = Some (OArray e)
       | None => True
       end.

(** A computation that maintains the invariant of the heap and keeps the
    objects. *)
Definition ok {A} (m : M A) : Prop :=
  ∀ s, heap_ok s → heap_ok (m s).2 ∧ keeps s (m s).2.

(** From [s] to [s']: what [s] holds is unchanged, and what is new is an
    array. *)
Definition grows (s s' : State) : Prop :=
  obj s' = obj s ∧ validations s' = validations s ∧
  (∀ l, is_Some (heap s !! l) → heap s' !! l = heap s !! l) ∧
  (∀ l, heap s !! l = None → heap s' !! l = None ∨ ∃ e, heap s' !! l = Some (OArray e)).

(** ** Chains of validating methods *)

(** The calls [p1(m1).p2(m2)...] for predicates paired with their
    messages. *)
Definition validating_calls (pms : list (predicate * val)) : list method :=
  map (λ pm, Predicate pm.1 pm.2) pms.

(** The condition of [pm] is [false] on [v]. *)
Definition fails `{!Host} (v : val) (pm : predicate * val) : bool :=
  match Validation.condition pm.1 v with
  | Return false => true
  | _ => false
  end.

(** The messages of the predicates that fail on [v], in their order. *)
Definition failures `{!Host} (v : val) (pms : list (predicate * val)) : list val :=
  (List.filter (fails v) pms).*2.

(** No condition of the list raises on [v]. *)
Definition decided `{!Host} (v : val) (pms : list (predicate * val)) : Prop :=
  Forall (λ pm, ∃ b, Validation.condition pm.1 v = Return b) pms.

(** ** More invariants of a session *)

(** Two [Validation]s never have the same [messages] array. *)
Definition distinct_arrays (s : State) : Prop :=
  ∀ r1 r2 V1 V2,
    heap s !! r1 = Some (OValidation V1) →
    heap s !! r2 = Some (OValidation V2) →
    messages V1 = messages V2 → r1 = r2.

(** [isValid] is [true] exactly while [messages] is empty. *)
Definition consistent (s : State) : Prop :=
  ∀ this V e,
    heap s !! this = Some (OValidation V) →
    heap s !! messages V = Some (OArray e) →
    (isValid V = true ↔ e = []).

(** The action is an assignment of the caller to an array. *)
Definition assigns (act : action) : bool :=
  match act with
  | DoAssign _ _ => true
  | _ => false
  end.

(** What an action of the library does to a state: nothing but new
    arrays, a new chain, an assignment to [value], or a recorded
    failure. *)
Inductive quiet `{!Host} (s : State) : State → Prop :=
  | quiet_grows s' : grows s s' → quiet s s'
  | quiet_started key v stop :
      Validator.returns (obj s) key = true →
      quiet s (started_state s key v stop)
  | quiet_assigned this V v :
      heap s !! this = Some (OValidation V) →
      quiet s (assigned_state s this V v)
  | quiet_failed this V e message :
      heap s !! this = Some (OValidation V) →
      heap s !! messages V = Some (OArray e) →
      quiet s (failed_state s this V e message).

(** From [s] to [s']: a [Validation] is still one, with the same [key],
    [stopOnFail] and [messages], and an [isValid] that was [false] is
    [false]. *)
Definition later (s s' : State) : Prop :=
  ∀ this V, heap s !! this = Some (OValidation V) →
    ∃ V', heap s' !! this = Some (OValidation V') ∧
          key V' = key V ∧ stopOnFail V' = stopOnFail V ∧
          messages V' = messages V ∧
          (isValid V = false → isValid V' = false).

(** From [s] to [s']: an array is still one, and has what it had as a
    prefix. *)
Definition appended (s s' : State) : Prop :=
  ∀ a e, heap s !! a = Some (OArray e) →
    ∃ e', heap s' !! a = Some (OArray e') ∧ e `prefix_of` e'.

(** ** The middleware

    [exports.middleware(next, app)(req)] makes one [Validator], over
    [req.postParams] for the methods POST and PUT and over
    [req.queryParams] for any other, and defines on [req] the accessors
    below before it calls [next(req)]. *)

Record Request := mkRequest {
  req_method : val;
  postParams : gmap string val;
  queryParams : gmap string val;
}.

Module Middleware.

(** [req.validator] *)
Definition validator (req : Request) : State :=
  Validator.new
    (if strict_equal (req_method req) (VStr "POST")
        || strict_equal (req_method req) (VStr "PUT")
     then postParams req else queryParams req).

(** [req.validate(name, trim)] and [req.validateAll(name, trim)] *)
Definition validate `{!Host} (name : string) (trim_ : val) : M chain :=
  Validator.validate name (VBool (strict_equal trim_ (VBool true))).

Definition validateAll `{!Host} (name : string) (trim_ : val) : M chain :=
  Validator.validateAll name (VBool (strict_equal trim_ (VBool true))).

(** [req.hasFailures]: [function() { return validator.hasFailures(); }],
    whatever it is called with. *)
Definition hasFailures (name : option string) (s : State) : outcome bool :=
  Validator.hasFailures None s.

(** [req.failureMessages(name)] *)
Definition failureMessages `{!Host} (name : option string) : M messages_result :=
  Validator.getMessages name.

End Middleware.

(** The message a call records on a [Validation] whose value is [v]: that
    of a validating method whose condition is [false]. *)
Definition recorded_message `{!Host} (m : method) (v : val) : option val :=
  match m with
  | Predicate p message => if fails v (p, message) then Some message else None
  | _ => None
  end.

(** Two keys are never registered at the same location. *)
Definition distinct_chains (s : State) : Prop :=
  ∀ k1 k2 this, validations s !! k1 = Some this → validations s !! k2 = Some this → k1 = k2.

(** The chain registered for a key has that key. *)
Definition keyed (s : State) : Prop :=
  ∀ k this V, validations s !! k = Some this → heap s !! this = Some (OValidation V) →
              key V = k.

(** All that holds of a session at any time. *)
Definition session_ok (s : State) : Prop :=
  wf s ∧ distinct_arrays s ∧ distinct_chains s ∧ keyed s.




(** The validating methods that test [typeof this.value === "string"]
    first. *)
Definition on_strings (p : predicate) : bool :=
  match p with
  | hasLength _ | hasLengthBetween _ _ | hasMaxLength _ | hasMinLength _
  | isAlpha | isAlphanumeric | isDateFormat | isEmail | isFileName
  | isHexColor | isUrl => true
  | _ => false
  end.

(** [validate(name, trim)] or [validateAll(name, trim)]. *)
Definition start `{!Host} (all : bool) (name : string) (trim_ : val) : M chain :=
  if all then Validator.validateAll name trim_ else Validator.validate name trim_.

(** ** Sessions of the tests

    The object [{"foo": "bar"}], the chain that [validate("foo")] returns on
    it, and the session [validate("foo").hasLength(4, "error msg")]. *)
Definition foo_object : gmap string val := {["foo" := VStr "bar"]}.

Definition foo_chain : loc := new_this (Validator.new foo_object).

Definition foo_session : list action :=
  [DoValidate "foo" VUndefined;
   DoCall (Active foo_chain) (Predicate (hasLength (VNum 4%float)) (VStr "error msg"))].

(** The object [{"a": "1", "b": 2}], the chains of [validate("a")] and then
    [validate("b")], and the session of the two. *)
Definition ab_object : gmap string val := {["a" := VStr "1"; "b" := VNum 2%float]}.

Definition a_chain : loc := new_this (Validator.new ab_object).

Definition b_chain : loc :=
  new_this (Validator.validate (H := SampleHost) "a" VUndefined (Validator.new ab_object)).2.

Definition ab_session : list action :=
  [DoValidate "a" VUndefined; DoValidate "b" VUndefined].

(** [v] is no object: a primitive value, which is no function. *)
Definition is_primitive (v : val) : bool :=
  match v with
  | VObj _ => false
  | _ => true
  end.

(** The object [{"hasOwnProperty": "x", "foo": "bar"}]. *)
Definition hidden_object : gmap string val :=
  {["hasOwnProperty" := VStr "x"; "foo" := VStr "bar"]}.

(** The session [validate("hasOwnProperty")] of [testHashIsNotAnObject],
    on its object. *)
Definition hash_object : gmap string val :=
  {["a" := VNum 1%float; "b" := VStr "foo.bar@baz@boo.com";
    "c" := VStr "   12345           "]}.

Definition hash_session : list action := [DoValidate "hasOwnProperty" VUndefined].

(** * Properties *)

(** ** Running the methods of a chain *)

Section engine.
Context `{!Host}.

Lemma bind_eq {A B} (m : M A) (k : A → M B) (s : State) :
  (m ≫= k) s = match m s with
               | (Return a, s') => k a s'
               | (Throw e, s') => (Throw e, s')
               end.
Proof. reflexivity. Qed.

Lemma read_eq (s : State) (this : loc) (V : Validation) :
  heap s !! this = Some (OValidation V) → read this s = (Return V, s).
Proof. intros E. unfold read. by rewrite E. Qed.

Lemma set_value_eq (s : State) (this : loc) (V : Validation) (v : val) :
  heap s !! this = Some (OValidation V) →
  set_value this v s =
    (Return (), set_heap (<[this := OValidation (with_value v V)]> (heap s)) s).
Proof. intros E. unfold set_value. by rewrite E. Qed.

Lemma set_isValid_eq (s : State) (this : loc) (V : Validation) (b : bool) :
  heap s !! this = Some (OValidation V) →
  set_isValid this b s =
    (Return (), set_heap (<[this := OValidation (with_isValid b V)]> (heap s)) s).
Proof. intros E. unfold set_isValid. by rewrite E. Qed.

Lemma push_eq (s : State) (a : loc) (l : list val) (x : val) :
  heap s !! a = Some (OArray l) →
  push a x s = (Return (), set_heap (<[a := OArray (l ++ [x])]> (heap s)) s).
Proof. intros E. unfold push. by rewrite E. Qed.

(** A location holds one object: a [Validation] and an array are apart. *)
Lemma apart (h : gmap loc object) (this a : loc) (V : Validation) (l : list val) :
  h !! this = Some (OValidation V) → h !! a = Some (OArray l) → this ≠ a.
Proof. intros E1 E2 ->. congruence. Qed.

Lemma checkResult_pass (s : State) (this : loc) (message : val) :
  Validation.checkResult this true message s = (Return (Active this), s).
Proof. reflexivity. Qed.

Lemma checkResult_fail (s : State) (this : loc) (V : Validation) (l : list val)
    (message : val) :
  heap s !! this = Some (OValidation V) →
  heap s !! messages V = Some (OArray l) →
  Validation.checkResult this false message s =
    (Return (if stopOnFail V then Void (value V) else Active this),
     failed_state s this V l message).
Proof.
  intros E1 E2. pose proof (apart _ _ _ _ _ E1 E2) as Hne.
  unfold Validation.checkResult. rewrite bind_eq, (set_isValid_eq _ _ _ _ E1).
  rewrite bind_eq, (read_eq _ _ (with_isValid false V)) by apply lookup_insert_eq.
  rewrite bind_eq, (push_eq _ _ l); cbn.
  - by destruct (stopOnFail V).
  - by rewrite lookup_insert_ne.
Qed.

Lemma validating_pass (s : State) (this : loc) (V : Validation) (p : predicate)
    (message : val) :
  heap s !! this = Some (OValidation V) →
  Validation.condition p (value V) = Return true →
  Validation.validating this p message s = (Return (Active this), s).
Proof.
  intros E C. unfold Validation.validating.
  rewrite bind_eq, (read_eq _ _ _ E), bind_eq. unfold lift. by rewrite C.
Qed.

Lemma validating_fail (s : State) (this : loc) (V : Validation) (l : list val)
    (p : predicate) (message : val) :
  heap s !! this = Some (OValidation V) →
  heap s !! messages V = Some (OArray l) →
  Validation.condition p (value V) = Return false →
  Validation.validating this p message s =
    (Return (if stopOnFail V then Void (value V) else Active this),
     failed_state s this V l message).
Proof.
  intros E1 E2 C. unfold Validation.validating.
  rewrite bind_eq, (read_eq _ _ _ E1), bind_eq. unfold lift. rewrite C.
  by apply checkResult_fail.
Qed.

Lemma validating_throw (s : State) (this : loc) (V : Validation) (p : predicate)
    (message : val) (e : exn) :
  heap s !! this = Some (OValidation V) →
  Validation.condition p (value V) = Throw e →
  Validation.validating this p message s = (Throw e, s).
Proof.
  intros E C. unfold Validation.validating.
  rewrite bind_eq, (read_eq _ _ _ E), bind_eq. unfold lift. by rewrite C.
Qed.

Lemma converting_eq (s : State) (this : loc) (V : Validation) (f : sanitizer) (v : val) :
  heap s !! this = Some (OValidation V) →
  Validation.conversion f (value V) = Return v →
  Validation.converting this f s = (Return (Active this), assigned_state s this V v).
Proof.
  intros E C. unfold Validation.converting.
  rewrite bind_eq, (read_eq _ _ _ E), bind_eq. unfold lift. rewrite C.
  by rewrite bind_eq, (set_value_eq _ _ _ _ E).
Qed.

Lemma optional_applies (s : State) (this : loc) (V : Validation) (d strict : val) :
  heap s !! this = Some (OValidation V) →
  (strict_equal strict (VBool true) && strict_equal (value V) VUndefined)
  || (negb (strict_equal strict (VBool true)) && negb (ToBoolean (value V))) = true →
  Validation.optional_ this d strict s = (Return (Void d), assigned_state s this V d).
Proof.
  intros E C. unfold Validation.optional_.
  rewrite bind_eq, (read_eq _ _ _ E), C.
  by rewrite bind_eq, (set_value_eq _ _ _ _ E).
Qed.

Lemma optional_skips (s : State) (this : loc) (V : Validation) (d strict : val) :
  heap s !! this = Some (OValidation V) →
  (strict_equal strict (VBool true) && strict_equal (value V) VUndefined)
  || (negb (strict_equal strict (VBool true)) && negb (ToBoolean (value V))) = false →
  Validation.optional_ this d strict s = (Return (Active this), s).
Proof.
  intros E C. unfold Validation.optional_.
  by rewrite bind_eq, (read_eq _ _ _ E), C.
Qed.

(** What [addValidation] allocates is new, and the two locations differ. *)
Lemma new_array_fresh (s : State) : heap s !! new_array s = None.
Proof. unfold new_array. apply not_elem_of_dom. apply is_fresh. Qed.

Lemma new_this_fresh (s : State) : heap s !! new_this s = None.
Proof.
  pose proof (is_fresh (dom (<[new_array s := OArray []]> (heap s)))) as F.
  apply not_elem_of_dom. intros Hin. apply F. rewrite dom_insert. set_solver.
Qed.

Lemma new_this_array (s : State) : new_this s ≠ new_array s.
Proof.
  pose proof (is_fresh (dom (<[new_array s := OArray []]> (heap s)))) as F.
  intros E. apply F. fold (new_this s). rewrite E, dom_insert. set_solver.
Qed.

Lemma strict_equal_true (b : bool) : strict_equal (VBool b) (VBool true) = b.
Proof. by destruct b. Qed.

(** [addValidation] raises what [hasOwnProperty] raises, and nothing is
    registered then; where that returns, it registers a new chain. *)
Lemma addValidation_cases (s : State) (key : string) (stop : bool) (trim_ : val) :
  Validator.addValidation key stop trim_ s =
    match hasOwnProperty Validator.call_value (obj s) key with
    | Return _ =>
        (Return (Active (new_this s)),
         started_state s key (Validator.initial_value (obj s) key trim_) stop)
    | Throw e => (Throw e, s)
    end.
Proof.
  unfold Validator.addValidation, Validator.initial_value. rewrite bind_eq.
  by destruct (hasOwnProperty Validator.call_value (obj s) key).
Qed.

Lemma initial_value_trim (o : gmap string val) (key : string) (trim_ : val) :
  Validator.initial_value o key (VBool (strict_equal trim_ (VBool true))) =
    Validator.initial_value o key trim_.
Proof.
  unfold Validator.initial_value, Validator.chosen_value.
  by rewrite strict_equal_true.
Qed.

Lemma validate_cases (s : State) (key : string) (trim_ : val) :
  Validator.validate key trim_ s =
    match hasOwnProperty Validator.call_value (obj s) key with
    | Return _ =>
        (Return (Active (new_this s)),
         started_state s key (Validator.initial_value (obj s) key trim_) true)
    | Throw e => (Throw e, s)
    end.
Proof.
  unfold Validator.validate. by rewrite addValidation_cases, initial_value_trim.
Qed.

Lemma validateAll_cases (s : State) (key : string) (trim_ : val) :
  Validator.validateAll key trim_ s =
    match hasOwnProperty Validator.call_value (obj s) key with
    | Return _ =>
        (Return (Active (new_this s)),
         started_state s key (Validator.initial_value (obj s) key trim_) false)
    | Throw e => (Throw e, s)
    end.
Proof.
  unfold Validator.validateAll. by rewrite addValidation_cases, initial_value_trim.
Qed.

Lemma validate_eq (s : State) (key : string) (trim_ : val) :
  Validator.returns (obj s) key = true →
  Validator.validate key trim_ s =
    (Return (Active (new_this s)),
     started_state s key (Validator.initial_value (obj s) key trim_) true).
Proof.
  unfold Validator.returns. rewrite validate_cases.
  by destruct (hasOwnProperty Validator.call_value (obj s) key).
Qed.

Lemma validateAll_eq (s : State) (key : string) (trim_ : val) :
  Validator.returns (obj s) key = true →
  Validator.validateAll key trim_ s =
    (Return (Active (new_this s)),
     started_state s key (Validator.initial_value (obj s) key trim_) false).
Proof.
  unfold Validator.returns. rewrite validateAll_cases.
  by destruct (hasOwnProperty Validator.call_value (obj s) key).
Qed.

(** On an object without an own property [hasOwnProperty] the method is
    the inherited one: [addValidation] returns, with the own property
    [key] or [undefined]. *)
Lemma returns_plain (o : gmap string val) (key : string) :
  o !! "hasOwnProperty" = None → Validator.returns o key = true.
Proof. intros E. unfold Validator.returns, hasOwnProperty. by rewrite E. Qed.

Lemma initial_value_plain (o : gmap string val) (key : string) (trim_ : val) :
  o !! "hasOwnProperty" = None →
  Validator.initial_value o key trim_ =
    match default VUndefined (o !! key) with
    | VStr str => if strict_equal trim_ (VBool true) then VStr (trim str) else VStr str
    | v => v
    end.
Proof.
  intros E. unfold Validator.initial_value, Validator.chosen_value, hasOwnProperty,
    Validator.get.
  rewrite E. by destruct (o !! key) as [[]|].
Qed.

Lemma started_this (s : State) (key : string) (v : val) (stop : bool) :
  heap (started_state s key v stop) !! new_this s =
    Some (OValidation (mkValidation key v stop true (new_array s))).
Proof. apply lookup_insert_eq. Qed.

Lemma started_array (s : State) (key : string) (v : val) (stop : bool) :
  heap (started_state s key v stop) !! new_array s = Some (OArray []).
Proof.
  cbn. rewrite lookup_insert_ne by apply new_this_array. apply lookup_insert_eq.
Qed.

Lemma failed_state_this (s : State) (this : loc) (V : Validation) (l : list val)
    (message : val) :
  heap s !! this = Some (OValidation V) →
  heap s !! messages V = Some (OArray l) →
  heap (failed_state s this V l message) !! this =
    Some (OValidation (with_isValid false V)).
Proof.
  intros E1 E2. pose proof (apart _ _ _ _ _ E1 E2) as Hne. cbn.
  rewrite lookup_insert_ne by done. apply lookup_insert_eq.
Qed.

Lemma failed_state_messages (s : State) (this : loc) (V : Validation) (l : list val)
    (message : val) :
  heap (failed_state s this V l message) !! messages V = Some (OArray (l ++ [message])).
Proof. apply lookup_insert_eq. Qed.

Lemma recorded_failed (s : State) (this : loc) (V : Validation) (l : list val)
    (message : val) :
  heap s !! this = Some (OValidation V) →
  heap s !! messages V = Some (OArray l) →
  recorded (failed_state s this V l message) this = Some (false, l ++ [message]).
Proof.
  intros E1 E2. unfold recorded, elements_at.
  rewrite (failed_state_this _ _ _ _ _ E1 E2). cbn [messages with_isValid].
  by rewrite failed_state_messages.
Qed.

(** [hasFailures(name)] raises once a [Validation] is registered under
    [hasOwnProperty]; before, it looks for [name]. *)
Lemma shadowed_false (s : State) :
  shadowed s = false ↔ validations s !! "hasOwnProperty" = None.
Proof. unfold shadowed. by rewrite bool_decide_eq_false, eq_None_not_Some. Qed.

Lemma hasFailures_key (s : State) (name : string) :
  Validator.hasFailures (Some name) s =
    if shadowed s then Throw TypeError
    else match validations s !! name with
         | None => Return true
         | Some this =>
             match heap s !! this with
             | Some (OValidation V) => Return (negb (isValid V))
             | _ => Throw TypeError
             end
         end.
Proof.
  unfold Validator.hasFailures, hasOwnProperty, shadowed.
  destruct (validations s !! "hasOwnProperty") as [f|]; [reflexivity|].
  by destruct (validations s !! name) as [this|].
Qed.

Lemma hasFailures_shadowed (s : State) (name : string) :
  shadowed s = true → Validator.hasFailures (Some name) s = Throw TypeError.
Proof. intros E. by rewrite hasFailures_key, E. Qed.

(** The session's queries on a registered key, from what the heap holds. *)
Lemma hasFailures_registered (s : State) (name : string) (this : loc) (V : Validation) :
  shadowed s = false →
  validations s !! name = Some this →
  heap s !! this = Some (OValidation V) →
  Validator.hasFailures (Some name) s = Return (negb (isValid V)).
Proof. intros E0 E1 E2. by rewrite hasFailures_key, E0, E1, E2. Qed.

Lemma getValue_registered (s : State) (name : string) (this : loc) (V : Validation) :
  validations s !! name = Some this →
  heap s !! this = Some (OValidation V) →
  Validator.getValue (Some name) s = Return (value V).
Proof. intros E1 E2. unfold Validator.getValue. by rewrite E1, E2. Qed.

Lemma getMessages_failed (s : State) (name : string) (this : loc) (V : Validation) :
  shadowed s = false →
  validations s !! name = Some this →
  heap s !! this = Some (OValidation V) →
  isValid V = false →
  Validator.getMessages (Some name) s = (Return (MArray (messages V)), s).
Proof.
  intros E0 E1 E2 E3. unfold Validator.getMessages.
  rewrite bind_eq, (hasFailures_registered _ _ _ _ E0 E1 E2), E3. cbn [negb].
  rewrite bind_eq. unfold gets. rewrite E1, bind_eq. by rewrite (read_eq _ _ _ E2).
Qed.

Lemma getMessages_shadowed (s : State) (name : string) :
  shadowed s = true → Validator.getMessages (Some name) s = (Throw TypeError, s).
Proof.
  intros E. unfold Validator.getMessages. by rewrite bind_eq, (hasFailures_shadowed _ _ E).
Qed.

(** ** The chain engine *)

(** C1 (amended).  On a [VoidValidation] every chainable call is
    [voidCheck]: validating methods, [optional], and the converting methods
    [toInt], [toFloat], [toBoolean], [toDate] and [toValue] alike return the
    same chain, raise nothing and leave the store (values, [isValid],
    messages) as it is; [getValue] returns the value the chain holds. *)
Theorem void_chain_ignores_every_call (v : val) (ms : list method) (s : State) :
  invoke_all (Void v) ms s = (Return (Void v), s) ∧
  chain_getValue (Void v) s = (Return v, s).
Proof.
  split; [|reflexivity].
  induction ms as [|m ms IH]; [reflexivity|].
  cbn [invoke_all]. rewrite bind_eq. exact IH.
Qed.

(** Before release 2.0.0 a converting method did run on a
    [VoidValidation]. *)
Lemma release1_void_chain_converts (v u : val) (f : sanitizer) (s : State) :
  Validation.conversion f v = Return u →
  Release1.call v (Sanitizer f) s = (Return (Void u), s).
Proof. intros C. unfold Release1.call. rewrite bind_eq. unfold lift. by rewrite C. Qed.

(** C2.  Where [validate(name)] returns (it raises what
    [this.obj.hasOwnProperty(name)] raises, when the object has an own
    property of that name), a first failing validating method on its result
    appends its message, sets [isValid] to [false] and returns a
    [VoidValidation] with the value; a second validating method on that
    chain changes nothing, so the field has exactly the one message.
    [hasFailures(name)] and [getMessages(name)] then tell so, unless a
    [Validation] is registered under [hasOwnProperty]: then they raise a
    [TypeError]. *)
Theorem validate_stops_at_first_failure (s : State) (name : string) (trim_ : val)
    (p1 p2 : predicate) (m1 m2 : val) :
  let v := Validator.initial_value (obj s) name trim_ in
  Validator.returns (obj s) name = true →
  Validation.condition p1 v = Return false →
  Validation.condition p2 v = Return false →
  ∃ this s0 s1,
    Validator.validate name trim_ s = (Return (Active this), s0) ∧
    invoke (Active this) (Predicate p1 m1) s0 = (Return (Void v), s1) ∧
    invoke (Void v) (Predicate p2 m2) s1 = (Return (Void v), s1) ∧
    recorded_for s1 name = Some (false, [m1]) ∧
    Validator.hasFailures (Some name) s1 =
      (if shadowed s1 then Throw TypeError else Return true) ∧
    ∃ a, elements_at s1 a = Some [m1] ∧
         Validator.getMessages (Some name) s1 =
           (if shadowed s1 then Throw TypeError else Return (MArray a), s1).
Proof.
  intros v Hr C1 _.
  set (V0 := mkValidation name v true true (new_array s)).
  set (s0 := started_state s name v true).
  assert (heap s0 !! new_this s = Some (OValidation V0)) as E1 by apply started_this.
  assert (heap s0 !! messages V0 = Some (OArray [])) as E2 by apply started_array.
  set (s1 := failed_state s0 (new_this s) V0 [] m1).
  assert (validations s1 !! name = Some (new_this s)) as R by apply lookup_insert_eq.
  pose proof (failed_state_this _ _ _ _ m1 E1 E2) as E3. fold s1 in E3.
  exists (new_this s), s0, s1. split_and!.
  - by apply validate_eq.
  - cbn [invoke Validation.call].
    by rewrite (validating_fail _ _ _ _ _ _ E1 E2 C1).
  - reflexivity.
  - unfold recorded_for. rewrite R. apply (recorded_failed _ _ _ _ _ E1 E2).
  - destruct (shadowed s1) eqn:Sh; [by apply hasFailures_shadowed|].
    by rewrite (hasFailures_registered _ _ _ _ Sh R E3).
  - exists (new_array s). split.
    + unfold elements_at. change (new_array s) with (messages V0).
      unfold s1. by rewrite failed_state_messages.
    + destruct (shadowed s1) eqn:Sh; [by apply getMessages_shadowed|].
      by rewrite (getMessages_failed _ _ _ _ Sh R E3).
Qed.

(** C3.  Where [validateAll(name)] returns (it raises what
    [this.obj.hasOwnProperty(name)] raises, when the object has an own
    property of that name), two failing validating methods on its result
    both append their messages, in the order of the calls, and the chain
    stays the [Validation].  [hasFailures(name)] and [getMessages(name)]
    then tell so, unless a [Validation] is registered under
    [hasOwnProperty]: then they raise a [TypeError]. *)
Theorem validateAll_collects_in_call_order (s : State) (name : string) (trim_ : val)
    (p1 p2 : predicate) (m1 m2 : val) :
  let v := Validator.initial_value (obj s) name trim_ in
  Validator.returns (obj s) name = true →
  Validation.condition p1 v = Return false →
  Validation.condition p2 v = Return false →
  ∃ this s0 s1 s2,
    Validator.validateAll name trim_ s = (Return (Active this), s0) ∧
    invoke (Active this) (Predicate p1 m1) s0 = (Return (Active this), s1) ∧
    invoke (Active this) (Predicate p2 m2) s1 = (Return (Active this), s2) ∧
    recorded_for s2 name = Some (false, [m1; m2]) ∧
    Validator.hasFailures (Some name) s2 =
      (if shadowed s2 then Throw TypeError else Return true) ∧
    ∃ a, elements_at s2 a = Some [m1; m2] ∧
         Validator.getMessages (Some name) s2 =
           (if shadowed s2 then Throw TypeError else Return (MArray a), s2).
Proof.
  intros v Hr C1 C2.
  set (V0 := mkValidation name v false true (new_array s)).
  set (s0 := started_state s name v false).
  assert (heap s0 !! new_this s = Some (OValidation V0)) as E1 by apply started_this.
  assert (heap s0 !! messages V0 = Some (OArray [])) as E2 by apply started_array.
  set (s1 := failed_state s0 (new_this s) V0 [] m1).
  pose proof (failed_state_this _ _ _ _ m1 E1 E2) as E3. fold s1 in E3.
  pose proof (failed_state_messages s0 (new_this s) V0 [] m1) as E4. fold s1 in E4.
  set (V1 := with_isValid false V0) in *.
  set (s2 := failed_state s1 (new_this s) V1 [m1] m2).
  assert (validations s2 !! name = Some (new_this s)) as R by apply lookup_insert_eq.
  pose proof (failed_state_this _ _ _ _ m2 E3 E4) as E5. fold s2 in E5.
  exists (new_this s), s0, s1, s2. split_and!.
  - by apply validateAll_eq.
  - cbn [invoke Validation.call].
    by rewrite (validating_fail _ _ _ _ _ _ E1 E2 C1).
  - cbn [invoke Validation.call].
    by rewrite (validating_fail _ _ _ _ _ _ E3 E4 C2).
  - unfold recorded_for. rewrite R. apply (recorded_failed _ _ _ _ _ E3 E4).
  - destruct (shadowed s2) eqn:Sh; [by apply hasFailures_shadowed|].
    by rewrite (hasFailures_registered _ _ _ _ Sh R E5).
  - exists (new_array s). split.
    + unfold elements_at. change (new_array s) with (messages V1).
      unfold s2. by rewrite failed_state_messages.
    + destruct (shadowed s2) eqn:Sh; [by apply getMessages_shadowed|].
      by rewrite (getMessages_failed _ _ _ _ Sh R E5).
Qed.

Lemma assigned_state_this (s : State) (this : loc) (V : Validation) (v : val) :
  heap (assigned_state s this V v) !! this = Some (OValidation (with_value v V)).
Proof. apply lookup_insert_eq. Qed.

Lemma getValue_assigned (s : State) (this : loc) (V : Validation) (v : val) :
  Validation.getValue this (assigned_state s this V v) =
    (Return v, assigned_state s this V v).
Proof.
  unfold Validation.getValue.
  by rewrite bind_eq, (read_eq _ _ _ (assigned_state_this s this V v)).
Qed.

(** An assignment to [value] leaves [isValid] and the messages alone. *)
Lemma recorded_assigned (s : State) (this : loc) (V : Validation) (v : val) :
  heap s !! this = Some (OValidation V) →
  recorded (assigned_state s this V v) this = recorded s this.
Proof.
  intros E. unfold recorded, elements_at.
  rewrite assigned_state_this, E. cbn [messages isValid with_value].
  destruct (decide (messages V = this)) as [->|Hne].
  - by rewrite assigned_state_this, E.
  - cbn. by rewrite lookup_insert_ne.
Qed.

Lemma not_undefined (v : val) : v ≠ VUndefined → strict_equal v VUndefined = false.
Proof. by destruct v. Qed.

(** C4 (amended).  [optional()] without a default and not strict, on a chain
    whose value is the empty string: the chain becomes a [VoidValidation]
    and no failure is recorded; a following [isAlpha] records none either,
    and a following [toInt] is ignored as well: [getValue()] is what
    [optional] left. *)
Theorem optional_on_empty_string (s : State) (this : loc) (V : Validation)
    (strict message radix : val) :
  heap s !! this = Some (OValidation V) →
  value V = VStr "" →
  strict_equal strict (VBool true) = false →
  ∃ u s',
    invoke (Active this) (optional VUndefined strict) s = (Return (Void u), s') ∧
    chain_getValue (Void u) s' = (Return u, s') ∧
    Validation.getValue this s' = (Return u, s') ∧
    recorded s' this = recorded s this ∧
    invoke_all (Void u) [Predicate isAlpha message] s' = (Return (Void u), s') ∧
    invoke_all (Void u) [Sanitizer (toInt radix)] s' = (Return (Void u), s') ∧
    invoke_all (Active this) [optional VUndefined strict; Sanitizer (toInt radix)] s
      = (Return (Void u), s').
Proof.
  intros E Hv Hs. exists VUndefined, (assigned_state s this V VUndefined).
  assert (invoke (Active this) (optional VUndefined strict) s =
            (Return (Void VUndefined), assigned_state s this V VUndefined)) as Run.
  { cbn [invoke Validation.call]. apply (optional_applies _ _ _ _ _ E).
    by rewrite Hs, Hv. }
  split_and!; try reflexivity.
  - exact Run.
  - apply getValue_assigned.
  - by apply recorded_assigned.
  - cbn [invoke_all]. by rewrite bind_eq, Run.
Qed.

(** C5.  [optional(d, true)]: on a value that is [undefined] the value
    becomes [d], the chain a [VoidValidation] holding [d], and [isValid] and
    the messages stay as they are; on any other value, falsy or not, the
    call changes nothing and returns the [Validation]. *)
Theorem strict_optional (s : State) (this : loc) (V : Validation) (d : val) :
  heap s !! this = Some (OValidation V) →
  (value V = VUndefined →
     let s' := assigned_state s this V d in
     invoke (Active this) (optional d (VBool true)) s = (Return (Void d), s') ∧
     chain_getValue (Void d) s' = (Return d, s') ∧
     Validation.getValue this s' = (Return d, s') ∧
     recorded s' this = recorded s this) ∧
  (value V ≠ VUndefined →
     invoke (Active this) (optional d (VBool true)) s = (Return (Active this), s) ∧
     Validation.getValue this s = (Return (value V), s)).
Proof.
  intros E. split.
  - intros Hv s'. split_and!; try reflexivity.
    + cbn [invoke Validation.call]. apply (optional_applies _ _ _ _ _ E).
      by rewrite Hv.
    + apply getValue_assigned.
    + by apply recorded_assigned.
  - intros Hv. split.
    + cbn [invoke Validation.call]. apply (optional_skips _ _ _ _ _ E).
      by rewrite (not_undefined _ Hv).
    + unfold Validation.getValue. by rewrite bind_eq, (read_eq _ _ _ E).
Qed.

(** A session with the one key [key], registered at [this]. *)
Lemma hasFailures_single (s : State) (key : string) (this : loc) (V : Validation) :
  validations s = <[key := this]> ∅ →
  heap s !! this = Some (OValidation V) →
  Validator.hasFailures None s = Return (negb (isValid V)).
Proof.
  intros R E. unfold Validator.hasFailures.
  rewrite R, insert_empty, map_to_list_singleton. cbn. rewrite E.
  by destruct (isValid V).
Qed.

(** The run of the README's chain on [{"age": str}], for a numeral [str]
    that [toInt] converts to [n]. *)
Lemma age_run (m1 : val) (str : string) (n : float) :
  strings_isInt str = true →
  parseInt (VStr str) (VNum 10%float) = n →
  let s := Validator.new {["age" := VStr str]} in
  let this := new_this s in
  let V1 := mkValidation "age" (VNum n) true true (new_array s) in
  ∃ s1, validations s1 = <["age" := this]> ∅ ∧
        heap s1 !! this = Some (OValidation V1) ∧
        heap s1 !! new_array s = Some (OArray []) ∧
        validate_age m1 s =
          if js_gt (VNum n) (VNum 17%float) then (Return (Active this), s1)
          else (Return (Void (VNum n)), failed_state s1 this V1 [] (VStr "too young")).
Proof.
  intros Ei Ep s this V1.
  set (V0 := mkValidation "age" (VStr str) true true (new_array s)).
  set (s0 := started_state s "age" (VStr str) true).
  assert (heap s0 !! this = Some (OValidation V0)) as E0 by apply started_this.
  assert (heap s0 !! new_array s = Some (OArray [])) as A0 by apply started_array.
  set (s1 := assigned_state s0 this V0 (VNum n)).
  assert (heap s1 !! this = Some (OValidation V1)) as E1 by apply assigned_state_this.
  assert (heap s1 !! new_array s = Some (OArray [])) as A1.
  { cbn. rewrite lookup_insert_ne by apply new_this_array. exact A0. }
  exists s1. split_and!; [done..|].
  unfold validate_age. rewrite bind_eq, validate_eq by (by apply returns_plain).
  replace (Validator.initial_value (obj s) "age" VUndefined) with (VStr str)
    by (rewrite initial_value_plain by done; cbn; by rewrite lookup_singleton_eq).
  fold s0 this. unfold age_chain. cbn [invoke_all invoke Validation.call].
  rewrite bind_eq, (validating_pass _ _ _ _ _ E0) by (cbn; by rewrite Ei).
  cbn [invoke_all invoke Validation.call].
  rewrite bind_eq, (converting_eq _ _ _ _ (VNum n) E0)
    by (cbn [Validation.conversion value V0 ToBoolean]; by rewrite Ei, Ep).
  fold s1. cbn [invoke_all invoke Validation.call]. rewrite bind_eq.
  destruct (js_gt (VNum n) (VNum 17%float)) eqn:G.
  - by rewrite (validating_pass _ _ _ _ _ E1) by (cbn; by rewrite G).
  - by rewrite (validating_fail _ _ _ [] _ _ E1 A1) by (cbn; by rewrite G).
Qed.

(** C8.  With a [strings.isInt] that accepts "19" and "15": on
    [{"age": "19"}] the chain records no failure and the value is the number
    19; on [{"age": "15"}] it records the one message "too young" and the
    value is the number 15, converted by [toInt] before the comparison
    failed. *)
Theorem age_example (m1 : val) :
  strings_isInt "19" = true →
  strings_isInt "15" = true →
  (∃ c s, validate_age m1 (Validator.new {["age" := VStr "19"]}) = (Return c, s) ∧
          Validator.hasFailures None s = Return false ∧
          Validator.hasFailures (Some "age") s = Return false ∧
          recorded_for s "age" = Some (true, []) ∧
          Validator.getValue (Some "age") s = Return (VNum 19%float)) ∧
  (∃ c s, validate_age m1 (Validator.new {["age" := VStr "15"]}) = (Return c, s) ∧
          Validator.hasFailures None s = Return true ∧
          Validator.hasFailures (Some "age") s = Return true ∧
          recorded_for s "age" = Some (false, [VStr "too young"]) ∧
          Validator.getValue (Some "age") s = Return (VNum 15%float)).
Proof.
  intros E19 E15. split.
  - destruct (age_run m1 "19" 19%float E19 eq_refl) as (s1 & R & E & A & Run).
    change (js_gt (VNum 19) (VNum 17)) with true in Run. cbn iota in Run.
    assert (validations s1 !! "age" = Some (new_this (Validator.new {["age" := VStr "19"]})))
      as Rk by (rewrite R; apply lookup_insert_eq).
    eexists _, s1. split_and!; [exact Run|..].
    + by rewrite (hasFailures_single _ _ _ _ R E).
    + assert (shadowed s1 = false) as Sh by (apply shadowed_false; by rewrite R).
      by rewrite (hasFailures_registered _ _ _ _ Sh Rk E).
    + unfold recorded_for, recorded, elements_at. rewrite Rk, E. cbn [messages].
      by rewrite A.
    + by rewrite (getValue_registered _ _ _ _ Rk E).
  - destruct (age_run m1 "15" 15%float E15 eq_refl) as (s1 & R & E & A & Run).
    change (js_gt (VNum 15) (VNum 17)) with false in Run. cbn iota in Run.
    set (this := new_this (Validator.new {["age" := VStr "15"]})) in *.
    set (V1 := mkValidation "age" (VNum 15) true true _) in *.
    set (s2 := failed_state s1 this V1 [] (VStr "too young")) in *.
    assert (validations s2 !! "age" = Some this) as Rk
      by (cbn; rewrite R; apply lookup_insert_eq).
    pose proof (failed_state_this _ _ _ _ (VStr "too young") E A) as E2. fold s2 in E2.
    eexists _, s2. split_and!; [exact Run|..].
    + by rewrite (hasFailures_single s2 "age" this _ R E2).
    + assert (shadowed s2 = false) as Sh by (apply shadowed_false; cbn; by rewrite R).
      by rewrite (hasFailures_registered _ _ _ _ Sh Rk E2).
    + unfold recorded_for. rewrite Rk. apply (recorded_failed _ _ _ _ _ E A).
    + by rewrite (getValue_registered _ _ _ _ Rk E2).
Qed.

(** ** The invariant *)

Lemma keeps_refl (s : State) : keeps s s.
Proof.
  split_and!; [done..|]. intros l. destruct (heap s !! l) as [[V|e]|]; eauto.
Qed.

Lemma keeps_trans (s1 s2 s3 : State) : keeps s1 s2 → keeps s2 s3 → keeps s1 s3.
Proof.
  intros (O1 & R1 & K1) (O2 & R2 & K2). split_and!; [congruence..|].
  intros l. specialize (K1 l). specialize (K2 l).
  destruct (heap s1 !! l) as [[V|e]|]; [| |done].
  - destruct K1 as (V' & E & Em). rewrite E in K2.
    destruct K2 as (V'' & E' & Em'). exists V''. split; [done|congruence].
  - destruct K1 as (e' & E). by rewrite E in K2.
Qed.

Lemma ok_ret {A} (a : A) : ok (mret a : M A).
Proof. intros s Hs. split; [done|apply keeps_refl]. Qed.

Lemma ok_throw {A} (e : exn) : ok (throw e : M A).
Proof. intros s Hs. split; [done|apply keeps_refl]. Qed.

Lemma ok_lift {A} (r : outcome A) : ok (lift r).
Proof. intros s Hs. split; [done|apply keeps_refl]. Qed.

Lemma ok_gets {A} (f : State → A) : ok (gets f).
Proof. intros s Hs. split; [done|apply keeps_refl]. Qed.

Lemma ok_pure {A} (f : State → outcome A) : ok (λ s, (f s, s)).
Proof. intros s Hs. split; [done|apply keeps_refl]. Qed.

Lemma ok_bind {A B} (m : M A) (k : A → M B) :
  ok m → (∀ a, ok (k a)) → ok (m ≫= k).
Proof.
  intros Hm Hk s Hs. rewrite bind_eq.
  destruct (Hm s Hs) as [H1 K1]. destruct (m s) as [[a|e] s1]; cbn in *; [|done].
  destruct (Hk a s1 H1) as [H2 K2]. split; [done|]. by eapply keeps_trans.
Qed.

Lemma ok_read (this : loc) : ok (read this).
Proof.
  intros s Hs. unfold read.
  destruct (heap s !! this) as [[V|e]|]; cbn; (split; [done|apply keeps_refl]).
Qed.

(** An update in place that keeps the kind of the object and its array. *)
Lemma update_validation (s : State) (this : loc) (V V' : Validation) :
  heap s !! this = Some (OValidation V) →
  messages V' = messages V →
  heap_ok s →
  let s' := set_heap (<[this := OValidation V']> (heap s)) s in
  heap_ok s' ∧ keeps s s'.
Proof.
  intros E Em Hs s'. split.
  - intros x W. cbn. intros [[<- [= <-]]|[Hne Hx]]%lookup_insert_Some.
    + rewrite Em. destruct (Hs _ _ E) as [l El]. exists l.
      rewrite lookup_insert_ne; [done|]. intros ->. congruence.
    + destruct (Hs _ _ Hx) as [l El]. exists l.
      rewrite lookup_insert_ne; [done|]. intros ->. congruence.
  - split_and!; [done..|]. intros x. cbn.
    destruct (decide (this = x)) as [<-|Hne].
    + rewrite E, lookup_insert_eq. eauto.
    + rewrite lookup_insert_ne by done.
      destruct (heap s !! x) as [[W|e]|]; eauto.
Qed.

Lemma update_array (s : State) (a : loc) (e e' : list val) :
  heap s !! a = Some (OArray e) →
  heap_ok s →
  let s' := set_heap (<[a := OArray e']> (heap s)) s in
  heap_ok s' ∧ keeps s s'.
Proof.
  intros E Hs s'. split.
  - intros x W. cbn. intros [[_ [=]]|[Hne Hx]]%lookup_insert_Some.
    destruct (Hs _ _ Hx) as [l El].
    destruct (decide (a = messages W)) as [<-|Hm].
    + rewrite lookup_insert_eq. eauto.
    + rewrite lookup_insert_ne by done. eauto.
  - split_and!; [done..|]. intros x. cbn.
    destruct (decide (a = x)) as [<-|Hne].
    + rewrite E, lookup_insert_eq. eauto.
    + rewrite lookup_insert_ne by done.
      destruct (heap s !! x) as [[W|l]|]; eauto.
Qed.

(** A new array grows the heap. *)
Lemma new_array_grows (s : State) (a : loc) (e : list val) :
  heap s !! a = None →
  heap_ok s →
  let s' := set_heap (<[a := OArray e]> (heap s)) s in
  heap_ok s' ∧ keeps s s' ∧ grows s s'.
Proof.
  intros E Hs s'. split_and!.
  - intros x W. cbn. intros [[_ [=]]|[Hne Hx]]%lookup_insert_Some.
    destruct (Hs _ _ Hx) as [l El]. exists l.
    rewrite lookup_insert_ne; [done|]. intros ->. congruence.
  - split_and!; [done..|]. intros x. cbn.
    destruct (decide (a = x)) as [<-|Hne].
    + by rewrite E.
    + rewrite lookup_insert_ne by done.
      destruct (heap s !! x) as [[W|l]|]; eauto.
  - split_and!; [done..| |].
    + intros x [y Hy]. cbn. rewrite lookup_insert_ne; [done|]. intros ->. congruence.
    + intros x Hx. cbn. destruct (decide (a = x)) as [<-|Hne].
      * right. rewrite lookup_insert_eq. eauto.
      * left. by rewrite lookup_insert_ne.
Qed.

Lemma ok_set_value (this : loc) (v : val) : ok (set_value this v).
Proof.
  intros s Hs. unfold set_value.
  destruct (heap s !! this) as [[V|e]|] eqn:E; cbn;
    [|split; [done|apply keeps_refl]..].
  by apply (update_validation s this V).
Qed.

Lemma ok_set_isValid (this : loc) (b : bool) : ok (set_isValid this b).
Proof.
  intros s Hs. unfold set_isValid.
  destruct (heap s !! this) as [[V|e]|] eqn:E; cbn;
    [|split; [done|apply keeps_refl]..].
  by apply (update_validation s this V).
Qed.

Lemma ok_push (a : loc) (x : val) : ok (push a x).
Proof.
  intros s Hs. unfold push.
  destruct (heap s !! a) as [[V|e]|] eqn:E; cbn;
    [split; [done|apply keeps_refl]| |split; [done|apply keeps_refl]].
  by apply (update_array s a e).
Qed.

Lemma ok_alloc_array (e : list val) : ok (alloc (OArray e)).
Proof.
  intros s Hs. unfold alloc. cbn.
  destruct (new_array_grows s (fresh (dom (heap s))) e) as (? & ? & _); [|done..].
  apply not_elem_of_dom. apply is_fresh.
Qed.

Lemma ok_slice (a : loc) : ok (slice a).
Proof.
  intros s Hs. unfold slice.
  destruct (heap s !! a) as [[V|e]|] eqn:E; cbn;
    [split; [done|apply keeps_refl]| |split; [done|apply keeps_refl]].
  by apply ok_alloc_array.
Qed.

Create HintDb ok.

#[local] Hint Resolve ok_ret ok_throw ok_lift ok_gets ok_pure ok_read ok_set_value
  ok_set_isValid ok_push ok_alloc_array ok_slice : ok.

Ltac ok_steps :=
  repeat first
    [ apply ok_bind; [|intros ?]
    | progress auto with ok
    | match goal with |- ok (if ?b then _ else _) => destruct b end
    | match goal with |- ok (match ?x with _ => _ end) => destruct x end ].

Lemma ok_checkResult (this : loc) (passed : bool) (message : val) :
  ok (Validation.checkResult this passed message).
Proof. unfold Validation.checkResult. ok_steps. Qed.

Lemma ok_call (this : loc) (m : method) : ok (Validation.call this m).
Proof.
  destruct m as [p message|f|d strict]; cbn [Validation.call].
  - unfold Validation.validating. ok_steps. apply ok_checkResult.
  - unfold Validation.converting. ok_steps.
  - unfold Validation.optional_. ok_steps.
Qed.

Lemma ok_invoke (c : chain) (m : method) : ok (invoke c m).
Proof. destruct c; cbn [invoke]; [apply ok_call|apply ok_ret]. Qed.

Lemma ok_slice_all (l : list (string * loc)) : ok (Validator.slice_all l).
Proof.
  induction l as [|[key this] l IH]; cbn [Validator.slice_all]; ok_steps.
Qed.

Lemma ok_getMessages (key : option string) : ok (Validator.getMessages key).
Proof.
  destruct key as [key|]; cbn [Validator.getMessages].
  - unfold Validator.messages_of_missing. ok_steps.
  - ok_steps. apply ok_slice_all.
Qed.

Lemma wf_keeps (s s' : State) : wf s → heap_ok s' → keeps s s' → wf s'.
Proof.
  intros [_ R] Hs' (_ & Ev & K). split; [done|].
  intros key this. rewrite Ev. intros [V E]%R.
  specialize (K this). rewrite E in K. destruct K as (V' & E' & _). eauto.
Qed.

Lemma wf_new (o : gmap string val) : wf (Validator.new o).
Proof. split; [intros this V|intros key this]; cbn; by rewrite lookup_empty. Qed.

Lemma started_old (s : State) (key : string) (v : val) (stop : bool) (l : loc) :
  is_Some (heap s !! l) → heap (started_state s key v stop) !! l = heap s !! l.
Proof.
  intros [x Hx]. cbn. rewrite !lookup_insert_ne; [done|..]; intros <-.
  - by rewrite new_array_fresh in Hx.
  - by rewrite new_this_fresh in Hx.
Qed.

Lemma wf_started (s : State) (key : string) (v : val) (stop : bool) :
  wf s → wf (started_state s key v stop).
Proof.
  intros [Hs R]. split.
  - intros this V E.
    destruct (decide (this = new_this s)) as [->|Hne].
    + rewrite started_this in E. injection E as <-. cbn [messages].
      rewrite started_array. eauto.
    + cbn in E. rewrite lookup_insert_ne in E by done.
      apply lookup_insert_Some in E as [[_ [=]]|[_ E]].
      destruct (Hs _ _ E) as [l El]. exists l. by rewrite started_old.
  - intros k this. cbn [validations started_state].
    intros [[_ <-]|[_ E]]%lookup_insert_Some.
    + rewrite started_this. eauto.
    + destruct (R _ _ E) as [V EV]. exists V. by rewrite started_old.
Qed.

Lemma assign_keeps (s : State) (a : loc) (e : list val) :
  heap_ok s → heap_ok (assign a e s) ∧ keeps s (assign a e s).
Proof.
  intros Hs. unfold assign.
  destruct (heap s !! a) as [[V|e0]|] eqn:E; [split; [done|apply keeps_refl]| |
    split; [done|apply keeps_refl]].
  by apply (update_array s a e0).
Qed.

(** One action of the caller: the invariant holds on, the object to
    validate is the same, and the registered keys grow by the key of a
    [validate] or [validateAll]. *)
Lemma elem_of_returned (o : gmap string val) (acts : list action) (k : string) :
  k ∈ returned o acts ↔ k ∈ validated acts ∧ Validator.returns o k = true.
Proof.
  unfold returned. rewrite elem_of_filter, Is_true_true. apply and_comm.
Qed.

Lemma returned_one (o : gmap string val) (key : string) (act : action) :
  validated [act] = {[key]} ∪ ∅ →
  returned o [act] = if Validator.returns o key then {[key]} else ∅.
Proof.
  intros E. apply set_eq. intros k. rewrite elem_of_returned, E.
  destruct (Validator.returns o key) eqn:Hr; [set_solver|].
  split; [|set_solver]. intros [Hk Hk']. assert (k = key) as -> by set_solver. congruence.
Qed.

Lemma returned_none (o : gmap string val) (act : action) :
  validated [act] = ∅ → returned o [act] = ∅.
Proof.
  intros E. apply set_eq. intros k. rewrite elem_of_returned, E. set_solver.
Qed.

Lemma step_inv (s : State) (act : action) :
  wf s →
  wf (step s act) ∧ obj (step s act) = obj s ∧
  dom (validations (step s act)) = dom (validations s) ∪ returned (obj s) [act].
Proof.
  intros Hs.
  assert (∀ s', heap_ok s' ∧ keeps s s' →
            wf s' ∧ obj s' = obj s ∧ dom (validations s') = dom (validations s) ∪ ∅)
    as Hkeep.
  { intros s' [H1 H2]. split; [by eapply wf_keeps|].
    destruct H2 as (-> & -> & _). split; [done|set_solver]. }
  destruct act as [key t|key t|c m|k|a e]; cbn [step];
    first [rewrite (returned_one (obj s) key) by done|rewrite returned_none by done].
  - rewrite validate_cases. unfold Validator.returns.
    destruct (hasOwnProperty Validator.call_value (obj s) key); cbn [snd].
    + split; [by apply wf_started|]. split; [done|]. cbn. by rewrite dom_insert_L, (comm_L (∪)).
    + split; [done|]. split; [done|set_solver].
  - rewrite validateAll_cases. unfold Validator.returns.
    destruct (hasOwnProperty Validator.call_value (obj s) key); cbn [snd].
    + split; [by apply wf_started|]. split; [done|]. cbn. by rewrite dom_insert_L, (comm_L (∪)).
    + split; [done|]. split; [done|set_solver].
  - apply Hkeep, ok_invoke, Hs.
  - apply Hkeep, ok_getMessages, Hs.
  - apply Hkeep, assign_keeps, Hs.
Qed.

Lemma validated_cons (act : action) (acts : list action) :
  validated (act :: acts) = validated [act] ∪ validated acts.
Proof.
  destruct act; cbn [validated]; set_solver.
Qed.

Lemma returned_cons (o : gmap string val) (act : action) (acts : list action) :
  returned o (act :: acts) = returned o [act] ∪ returned o acts.
Proof.
  apply set_eq. intros k.
  rewrite elem_of_union, !elem_of_returned, (validated_cons act acts). set_solver.
Qed.

Lemma run_inv (s : State) (acts : list action) :
  wf s →
  wf (run s acts) ∧ obj (run s acts) = obj s ∧
  dom (validations (run s acts)) = dom (validations s) ∪ returned (obj s) acts.
Proof.
  revert s. induction acts as [|act acts IH]; intros s Hs.
  - cbn. split; [done|]. split; [done|].
    assert (returned (obj s) [] = ∅) as -> by (apply set_eq; intros k;
      rewrite elem_of_returned; set_solver).
    set_solver.
  - destruct (step_inv s act Hs) as (W & O & D).
    destruct (IH (step s act) W) as (W' & O' & D').
    change (run s (act :: acts)) with (run (step s act) acts).
    split; [done|]. split; [congruence|].
    by rewrite D', D, O, (returned_cons (obj s) act acts), (assoc_L (∪)).
Qed.

(** In a session the registered keys are those of the calls of [validate]
    and [validateAll] that returned. *)
Lemma session_inv (o : gmap string val) (acts : list action) :
  let s := run (Validator.new o) acts in
  wf s ∧ obj s = o ∧ dom (validations s) = returned o acts.
Proof.
  destruct (run_inv (Validator.new o) acts (wf_new o)) as (W & O & D).
  cbn. split; [done|]. split; [done|]. rewrite D. cbn. set_solver.
Qed.

(** On an object without an own property [hasOwnProperty] every call
    returns. *)
Lemma returned_plain (o : gmap string val) (acts : list action) :
  o !! "hasOwnProperty" = None → returned o acts = validated acts.
Proof.
  intros E. apply set_eq. intros k. rewrite elem_of_returned, (returns_plain o k E).
  naive_solver.
Qed.

(** ** The queries of a session *)

(** C6.  For a key that was never validated [hasFailures(name)] is [true]
    (it raises a [TypeError] once a [Validation] is registered under
    [hasOwnProperty]); [getMessages(name)] then reads
    [this.validations[name].messages], where no [Validation] is: it raises
    a [TypeError] (or, for a name that [Object.prototype] has, returns
    [undefined]) and in no case an array, empty or not. *)
Theorem never_validated_field (o : gmap string val) (acts : list action) (name : string) :
  name ∉ validated acts →
  let s := run (Validator.new o) acts in
  Validator.hasFailures (Some name) s =
    (if shadowed s then Throw TypeError else Return true) ∧
  Validator.getMessages (Some name) s =
    (if shadowed s then Throw TypeError
     else if on_prototype name then Return MUndefined else Throw TypeError, s) ∧
  ∀ a s', Validator.getMessages (Some name) s ≠ (Return (MArray a), s').
Proof.
  intros Hn s. destruct (session_inv o acts) as (_ & _ & D). fold s in D.
  assert (validations s !! name = None) as E.
  { apply not_elem_of_dom. rewrite D, elem_of_returned. naive_solver. }
  assert (Validator.getMessages (Some name) s =
            (if shadowed s then Throw TypeError
             else if on_prototype name then Return MUndefined else Throw TypeError, s)) as G.
  { destruct (shadowed s) eqn:Sh; [by apply getMessages_shadowed|].
    unfold Validator.getMessages.
    rewrite bind_eq, hasFailures_key, Sh, E, bind_eq. unfold gets. rewrite E.
    unfold Validator.messages_of_missing. by destruct (on_prototype name). }
  split_and!.
  - by rewrite hasFailures_key, E.
  - exact G.
  - intros a s'. rewrite G. by destruct (shadowed s), (on_prototype name).
Qed.

(** C7 (amended).  [getValue(name)] returns the value of the chain
    registered for [name], for every key for which a call of [validate] or
    [validateAll] returned (each does, unless the object has an own
    property [hasOwnProperty]); called without a key it returns
    [undefined]. *)
Theorem getValue_of_session (o : gmap string val) (acts : list action) (name : string) :
  let s := run (Validator.new o) acts in
  (name ∈ returned o acts →
     ∃ this V, validations s !! name = Some this ∧
               heap s !! this = Some (OValidation V) ∧
               Validator.getValue (Some name) s = Return (value V)) ∧
  (o !! "hasOwnProperty" = None → returned o acts = validated acts) ∧
  Validator.getValue None s = Return VUndefined.
Proof.
  intros s. split_and!; [|apply returned_plain|reflexivity]. intros Hn.
  destruct (session_inv o acts) as (W & _ & D). fold s in D, W.
  destruct W as [_ R]. rewrite <- D in Hn. apply elem_of_dom in Hn as [this E].
  destruct (R _ _ E) as [V EV]. exists this, V. split_and!; [done..|].
  by apply (getValue_registered _ _ this).
Qed.

Lemma keys_dom {A} (m : gmap string A) (k : string) :
  k ∈ (map_to_list m).*1 ↔ k ∈ dom m.
Proof.
  rewrite elem_of_dom, list_elem_of_fmap. split.
  - intros ([k' x] & -> & Hx%elem_of_map_to_list). eauto.
  - intros [x Hx]. exists (k, x). split; [done|]. by apply elem_of_map_to_list.
Qed.

Lemma keys_length {A} (m : gmap string A) :
  length (map_to_list m).*1 = size (dom m).
Proof. by rewrite length_fmap, length_map_to_list, size_dom. Qed.


(** ** Copies of the message arrays *)

Lemma grows_refl (s : State) : grows s s.
Proof. split_and!; [done..| |]; eauto. Qed.

Lemma grows_trans (s1 s2 s3 : State) : grows s1 s2 → grows s2 s3 → grows s1 s3.
Proof.
  intros (O1 & R1 & U1 & N1) (O2 & R2 & U2 & N2). split_and!; [congruence..| |].
  - intros l Hl. rewrite U2; [by apply U1|]. by rewrite U1.
  - intros l Hl. destruct (N1 l Hl) as [E|[e E]].
    + by apply N2.
    + right. exists e. rewrite U2; [done|]. by rewrite E.
Qed.

(** What [getMessages()] builds from the pairs [l], in a state where each
    pair names a [Validation]: an array per key, each new and holding the
    elements of the [messages] of a [Validation] of that key. *)
Lemma slice_all_spec (l : list (string * loc)) (s : State) :
  heap_ok s →
  Forall (λ p, ∃ V, heap s !! p.2 = Some (OValidation V)) l →
  ∃ m s', Validator.slice_all l s = (Return m, s') ∧
    heap_ok s' ∧ grows s s' ∧
    (∀ key, is_Some (m !! key) ↔ key ∈ l.*1) ∧
    (∀ key a, m !! key = Some a →
       heap s !! a = None ∧
       ∃ this V e, (key, this) ∈ l ∧ heap s !! this = Some (OValidation V) ∧
                   heap s !! messages V = Some (OArray e) ∧
                   heap s' !! a = Some (OArray e)).
Proof.
  revert s. induction l as [|[key this] l IH]; intros s Hs Hl.
  - exists ∅, s. split_and!; [done..|apply grows_refl| |].
    + intros key. rewrite lookup_empty. split; [by intros [? ?]|by intros ?%elem_of_nil].
    + intros key a. by rewrite lookup_empty.
  - apply Forall_cons in Hl as [[V EV] Hl]. cbn in EV.
    destruct (Hs _ _ EV) as [e Ee].
    set (a := fresh (dom (heap s))).
    assert (heap s !! a = None) as Fa by (apply not_elem_of_dom; apply is_fresh).
    set (s1 := set_heap (<[a := OArray e]> (heap s)) s).
    destruct (new_array_grows s a e Fa Hs) as (Hs1 & _ & G1). fold s1 in Hs1, G1.
    assert (Forall (λ p, ∃ V, heap s1 !! p.2 = Some (OValidation V)) l) as Hl1.
    { eapply Forall_impl; [exact Hl|]. intros p [W EW]. exists W.
      destruct G1 as (_ & _ & U & _). rewrite U; [done|]. by rewrite EW. }
    destruct (IH s1 Hs1 Hl1) as (m & s' & Run & Hs' & G & Dm & Cm).
    exists (<[key := a]> m), s'. split_and!.
    + cbn [Validator.slice_all]. rewrite bind_eq, (read_eq _ _ _ EV), bind_eq.
      unfold slice. rewrite Ee. unfold alloc. fold a. cbn. fold s1.
      rewrite bind_eq, Run. reflexivity.
    + done.
    + by eapply grows_trans.
    + intros k. rewrite fmap_cons, elem_of_cons, <- Dm. cbn.
      destruct (decide (key = k)) as [->|Hne].
      * rewrite lookup_insert_eq. split; eauto.
      * rewrite lookup_insert_ne by done. split; [by right|]. by intros [?|?].
    + intros k b. intros [[<- <-]|[Hne Eb]]%lookup_insert_Some.
      * split; [done|]. exists this, V, e. split_and!; [by left|done..|].
        destruct G as (_ & _ & U & _). rewrite U; cbn; by rewrite lookup_insert_eq.
      * destruct (Cm _ _ Eb) as (Fb & this' & W & e' & Hin & EW & Ee' & Eb').
        assert (a ≠ b) as Hab by (intros ->; cbn in Fb; by rewrite lookup_insert_eq in Fb).
        cbn in Fb, EW, Ee'. rewrite lookup_insert_ne in Fb by done.
        split; [done|]. exists this', W, e'.
        apply lookup_insert_Some in EW as [[_ [=]]|[_ EW]].
        destruct (Hs _ _ EW) as [e'' Ee''].
        rewrite lookup_insert_ne in Ee' by (intros Heq; rewrite <- Heq in Ee''; congruence).
        split_and!; [by right|done..].
Qed.


Lemma recorded_grows (s s' : State) (this : loc) :
  heap_ok s → grows s s' → recorded s' this = recorded s this.
Proof.
  intros Hs (_ & _ & U & N). unfold recorded, elements_at.
  destruct (heap s !! this) as [[V|e]|] eqn:E.
  - rewrite U, E by (by rewrite E). destruct (Hs _ _ E) as [l El].
    by rewrite U, El by (by rewrite El).
  - by rewrite U, E by (by rewrite E).
  - by destruct (N _ E) as [->|[e ->]].
Qed.




(** With a key, [getMessages] returns the array of the chain itself: what
    the caller assigns to it is what the chain has recorded. *)
Lemma getMessages_with_key_shares (s : State) (name : string) (this : loc)
    (V : Validation) (e e' : list val) :
  shadowed s = false →
  validations s !! name = Some this →
  heap s !! this = Some (OValidation V) →
  heap s !! messages V = Some (OArray e) →
  isValid V = false →
  Validator.getMessages (Some name) s = (Return (MArray (messages V)), s) ∧
  recorded_for (assign (messages V) e' s) name = Some (false, e').
Proof.
  intros Sh R EV Ee Hv. split; [by apply (getMessages_failed _ _ this)|].
  pose proof (apart _ _ _ _ _ EV Ee) as Hne.
  unfold recorded_for, recorded, elements_at, assign. rewrite Ee. cbn.
  rewrite R, lookup_insert_ne, EV, lookup_insert_eq by done. by rewrite Hv.
Qed.
End engine.

(** * More of the chain engine *)

Section coverage.
Context `{!Host}.

(** ** One call *)

Lemma invoke_all_void (v : val) (ms : list method) (s : State) :
  invoke_all (Void v) ms s = (Return (Void v), s).
Proof.
  induction ms as [|m ms IH]; [reflexivity|].
  cbn [invoke_all]. rewrite bind_eq. exact IH.
Qed.

(** What a call on a [Validation] does, by cases. *)
Lemma invoke_cases (s : State) (this : loc) (V : Validation) (e : list val)
    (m : method) :
  heap s !! this = Some (OValidation V) →
  heap s !! messages V = Some (OArray e) →
  invoke (Active this) m s = (Return (Active this), s)
  ∨ (∃ ex, invoke (Active this) m s = (Throw ex, s) ∧
           ((∃ p message, m = Predicate p message ∧
                          Validation.condition p (value V) = Throw ex)
            ∨ (∃ f, m = Sanitizer f ∧ Validation.conversion f (value V) = Throw ex)))
  ∨ (∃ f v, m = Sanitizer f ∧ Validation.conversion f (value V) = Return v ∧
            invoke (Active this) m s = (Return (Active this), assigned_state s this V v))
  ∨ (∃ d strict, m = optional d strict ∧
                 invoke (Active this) m s = (Return (Void d), assigned_state s this V d))
  ∨ (∃ p message, m = Predicate p message ∧
                  Validation.condition p (value V) = Return false ∧
                  invoke (Active this) m s =
                    (Return (if stopOnFail V then Void (value V) else Active this),
                     failed_state s this V e message)).
Proof.
  intros EV Ee. destruct m as [p message|f|d strict]; cbn [invoke Validation.call].
  - destruct (Validation.condition p (value V)) as [[|]|ex] eqn:C.
    + left. by apply (validating_pass _ _ V).
    + do 4 right. exists p, message. split_and!; [done..|].
      by apply validating_fail.
    + right; left. exists ex. split; [by apply (validating_throw _ _ V)|].
      left. eauto.
  - destruct (Validation.conversion f (value V)) as [v|ex] eqn:C.
    + do 2 right; left. exists f, v. split_and!; [done..|]. by apply converting_eq.
    + right; left. exists ex. split; [|right; eauto].
      unfold Validation.converting.
      rewrite bind_eq, (read_eq _ _ _ EV), bind_eq. unfold lift. by rewrite C.
  - destruct ((strict_equal strict (VBool true) && strict_equal (value V) VUndefined)
              || (negb (strict_equal strict (VBool true)) && negb (ToBoolean (value V))))
      eqn:C.
    + do 3 right; left. exists d, strict. split; [done|]. by apply optional_applies.
    + left. by apply (optional_skips _ _ V).
Qed.

(** A call changes no more of the heap than the [Validation] it is called
    on and the array of that. *)
Lemma invoke_frame (s : State) (this : loc) (V : Validation) (e : list val)
    (m : method) (l : loc) :
  heap s !! this = Some (OValidation V) →
  heap s !! messages V = Some (OArray e) →
  l ≠ this → l ≠ messages V →
  heap (invoke (Active this) m s).2 !! l = heap s !! l.
Proof.
  intros EV Ee H1 H2.
  destruct (invoke_cases s this V e m EV Ee)
    as [->|[(ex & -> & _)|[(f & v & _ & _ & ->)|[(d & st & _ & ->)|(p & msg & _ & _ & ->)]]]];
    cbn; rewrite ?lookup_insert_ne by done; done.
Qed.

Lemma invoke_validator (s : State) (c : chain) (m : method) :
  obj (invoke c m s).2 = obj s ∧ validations (invoke c m s).2 = validations s.
Proof.
  destruct c as [this|v]; [|done]. cbn [invoke].
  destruct m as [p message|f|d strict]; cbn [Validation.call].
  - unfold Validation.validating, read. rewrite bind_eq.
    destruct (heap s !! this) as [[V|?]|]; [|done..]. rewrite bind_eq. unfold lift.
    destruct (Validation.condition p (value V)) as [[|]|ex]; [done| |done].
    unfold Validation.checkResult, set_isValid. rewrite bind_eq.
    destruct (heap s !! this) as [[W|?]|]; [|done..].
    rewrite bind_eq. unfold read. cbn. rewrite lookup_insert_eq, bind_eq. unfold push. cbn.
    destruct (_ !! messages W) as [[?|?]|]; [done| |done]. cbn. by destruct (stopOnFail W).
  - unfold Validation.converting, read. rewrite bind_eq.
    destruct (heap s !! this) as [[V|?]|] eqn:E; [|done..]. rewrite bind_eq. unfold lift.
    destruct (Validation.conversion f (value V)); [|done].
    rewrite bind_eq. unfold set_value. by rewrite E.
  - unfold Validation.optional_, read. rewrite bind_eq.
    destruct (heap s !! this) as [[V|?]|] eqn:E; [|done..].
    destruct (_ || _); [|done]. rewrite bind_eq. unfold set_value. by rewrite E.
Qed.

(** X1.  What a call records.  On a [Validation] with value [v], [isValid]
    and the messages change only by a validating method whose condition is
    [false] on [v]: it sets [isValid] to [false] and appends its message.
    Any other call (a passing or raising one, a converting method,
    [optional]) leaves both as they are. *)
Theorem call_records (s : State) (this : loc) (V : Validation) (e : list val)
    (m : method) :
  heap s !! this = Some (OValidation V) →
  heap s !! messages V = Some (OArray e) →
  recorded (invoke (Active this) m s).2 this =
    Some (match recorded_message m (value V) with
          | Some message => (false, e ++ [message])
          | None => (isValid V, e)
          end).
Proof.
  intros EV Ee.
  assert (recorded s this = Some (isValid V, e)) as R0
    by (unfold recorded, elements_at; by rewrite EV, Ee).
  destruct (invoke_cases s this V e m EV Ee)
    as [E|[(ex & E & C)|[(f & v & -> & C & E)|[(d & st & -> & E)|(p & msg & -> & C & E)]]]];
    rewrite E; cbn [snd].
  - rewrite R0. destruct m as [p message|f|d strict]; cbn [recorded_message]; try done.
    unfold fails. cbn [fst]. destruct (Validation.condition p (value V)) as [[|]|] eqn:C;
      try done.
    exfalso. cbn [invoke Validation.call] in E.
    rewrite (validating_fail _ _ _ _ _ message EV Ee C) in E.
    injection E as _ E. apply (f_equal (λ s, heap s !! messages V)) in E.
    rewrite failed_state_messages, Ee in E. injection E as E.
    apply (f_equal length) in E. rewrite length_app in E. cbn in E. lia.
  - rewrite R0.
    destruct C as [(p & message & -> & C)|(f & -> & C)]; cbn [recorded_message]; [|done].
    unfold fails. cbn [fst]. by rewrite C.
  - by rewrite (recorded_assigned _ _ _ _ EV).
  - by rewrite (recorded_assigned _ _ _ _ EV).
  - cbn [recorded_message]. unfold fails. cbn [fst]. rewrite C.
    by apply recorded_failed.
Qed.

Lemma condition_raises (p : predicate) (v : val) (ex : exn) :
  Validation.condition p v = Throw ex →
  ∃ func, p = passes func ∧
    match func with
    | NotFunction _ => ex = Error "Validator function argument is not a function!"
    | Function f => f v = Throw ex
    end.
Proof.
  destruct p; cbn; try discriminate. intros C. exists func. split; [done|].
  destruct func as [f|x]; [|by injection C]. by destruct (f v); [|injection C as ->].
Qed.

Lemma conversion_raises (f : sanitizer) (v : val) (ex : exn) :
  Validation.conversion f v = Throw ex →
  ∃ func, f = toValue func ∧
    match func with
    | NotFunction _ => ex = Error "Validator function argument is not a function!"
    | Function g => g v = Throw ex
    end.
Proof.
  destruct f; cbn; try discriminate.
  - by destruct (ToBoolean strictTrue).
  - intros C. exists converter. split; [done|].
    destruct converter as [g|x]; [done|by injection C].
Qed.

(** X2.  Only a callback makes a call raise.  A call on a [Validation] raises
    only as [passes(func)] or [toValue(func)], with the [Error] for a
    [func] that is no function or with what [func] itself raises on the
    value; and then the store is as before the call: nothing is recorded.
    No other method raises on any value, with arguments of any type
    ([matches] being given a regular expression, and the functions of
    [Host] returning as they do). *)
Theorem only_callbacks_raise (s s' : State) (this : loc) (V : Validation)
    (e : list val) (m : method) (ex : exn) :
  heap s !! this = Some (OValidation V) →
  heap s !! messages V = Some (OArray e) →
  invoke (Active this) m s = (Throw ex, s') →
  s' = s ∧
  ∃ func, ((∃ message, m = Predicate (passes func) message) ∨ m = Sanitizer (toValue func)) ∧
    match func with
    | NotFunction _ => ex = Error "Validator function argument is not a function!"
    | Function f => f (value V) = Throw ex
    end.
Proof.
  intros EV Ee E.
  destruct (invoke_cases s this V e m EV Ee)
    as [E'|[(ex' & E' & C)|[(f & v & _ & _ & E')|[(d & st & _ & E')|(p & msg & _ & _ & E')]]]];
    rewrite E' in E; try discriminate.
  injection E as -> ->. split; [done|].
  destruct C as [(p & message & -> & C)|(f & -> & C)].
  - destruct (condition_raises _ _ _ C) as (func & -> & Hf). exists func. eauto.
  - destruct (conversion_raises _ _ _ C) as (func & -> & Hf). exists func. eauto.
Qed.

(** ** Chains of validating methods *)

Lemma failures_cons (v : val) (pm : predicate * val) (pms : list (predicate * val)) :
  failures v (pm :: pms) =
    if fails v pm then pm.2 :: failures v pms else failures v pms.
Proof. unfold failures. cbn. by destruct (fails v pm). Qed.

Lemma collect_all (pms : list (predicate * val)) (s : State) (this : loc)
    (V : Validation) (e : list val) :
  heap s !! this = Some (OValidation V) →
  heap s !! messages V = Some (OArray e) →
  stopOnFail V = false →
  decided (value V) pms →
  ∃ s' V',
    invoke_all (Active this) (validating_calls pms) s = (Return (Active this), s') ∧
    validations s' = validations s ∧
    heap s' !! this = Some (OValidation V') ∧
    value V' = value V ∧ messages V' = messages V ∧
    isValid V' = (if failures (value V) pms is [] then isValid V else false) ∧
    heap s' !! messages V = Some (OArray (e ++ failures (value V) pms)).
Proof.
  revert s V e. induction pms as [|[p message] pms IH]; intros s V e EV Ee Hs Hd.
  - exists s, V. cbn. rewrite app_nil_r. done.
  - apply Forall_cons in Hd as [[b C] Hd]. cbn [fst] in C.
    cbn [validating_calls map invoke_all fst snd]. rewrite bind_eq.
    assert (fails (value V) (p, message) = negb b) as F
      by (unfold fails; cbn [fst]; rewrite C; by destruct b).
    rewrite failures_cons, F. cbn [invoke Validation.call snd]. destruct b; cbn [negb].
    + rewrite (validating_pass _ _ _ _ _ EV C). by apply IH.
    + rewrite (validating_fail _ _ _ _ _ _ EV Ee C), Hs.
      pose proof (failed_state_this _ _ _ _ message EV Ee) as EV1.
      pose proof (failed_state_messages s this V e message) as Ee1.
      destruct (IH _ (with_isValid false V) _ EV1 Ee1 Hs Hd)
        as (s' & V' & Run & Rv & EV' & Hv & Hm & Hi & Ee').
      exists s', V'. split_and!; try done.
      * cbn [isValid with_isValid value] in Hi. rewrite Hi.
        by destruct (failures (value V) pms).
      * cbn [value with_isValid messages] in Ee'. by rewrite Ee', <- app_assoc.
Qed.

Lemma stop_at_first (pms : list (predicate * val)) (s : State) (this : loc)
    (V : Validation) (e : list val) :
  heap s !! this = Some (OValidation V) →
  heap s !! messages V = Some (OArray e) →
  stopOnFail V = true →
  decided (value V) pms →
  invoke_all (Active this) (validating_calls pms) s =
    match failures (value V) pms with
    | [] => (Return (Active this), s)
    | message :: _ => (Return (Void (value V)), failed_state s this V e message)
    end.
Proof.
  intros EV Ee Hs. induction pms as [|[p message] pms IH]; intros Hd; [done|].
  apply Forall_cons in Hd as [[b C] Hd]. cbn [fst] in C.
  cbn [validating_calls map invoke_all fst snd]. rewrite bind_eq.
  assert (fails (value V) (p, message) = negb b) as F
    by (unfold fails; cbn [fst]; rewrite C; by destruct b).
  rewrite failures_cons, F. cbn [invoke Validation.call snd]. destruct b; cbn [negb].
  - rewrite (validating_pass _ _ _ _ _ EV C). by apply IH.
  - rewrite (validating_fail _ _ _ _ _ _ EV Ee C), Hs. apply invoke_all_void.
Qed.

(** X3.  [validate] and any number of validating methods.  Where
    [validate(name)] returns (it raises what [this.obj.hasOwnProperty(name)]
    raises, when the object has an own property of that name) and no
    condition raises, the field records exactly the message of the first
    method that fails on the value, and none when all pass; the chain is
    then a [VoidValidation] with the value, or still the [Validation]. *)
Theorem validate_records_first_failure (s : State) (name : string) (trim_ : val)
    (pms : list (predicate * val)) :
  let v := Validator.initial_value (obj s) name trim_ in
  Validator.returns (obj s) name = true →
  decided v pms →
  ∃ c s',
    (c0 ← Validator.validate name trim_; invoke_all c0 (validating_calls pms)) s
      = (Return c, s') ∧
    recorded_for s' name =
      Some (if failures v pms is [] then true else false, take 1 (failures v pms)) ∧
    (c = Void v ∨ failures v pms = []) ∧
    Validator.getValue (Some name) s' = Return v.
Proof.
  intros v Hr Hd.
  set (V0 := mkValidation name v true true (new_array s)).
  set (s0 := started_state s name v true).
  assert (heap s0 !! new_this s = Some (OValidation V0)) as E1 by apply started_this.
  assert (heap s0 !! messages V0 = Some (OArray [])) as E2 by apply started_array.
  assert (validations s0 !! name = Some (new_this s)) as R by apply lookup_insert_eq.
  rewrite bind_eq, validate_eq by done. fold v s0.
  rewrite (stop_at_first pms s0 _ V0 [] E1 E2 eq_refl Hd). cbn [value V0].
  destruct (failures v pms) as [|message rest].
  - exists (Active (new_this s)), s0. split_and!; [done| |by right|].
    + unfold recorded_for, recorded, elements_at. by rewrite R, E1, E2.
    + by rewrite (getValue_registered _ _ _ _ R E1).
  - exists (Void v), (failed_state s0 (new_this s) V0 [] message).
    split_and!; [done| |by left|].
    + unfold recorded_for. cbn [validations failed_state set_heap]. rewrite R.
      by rewrite (recorded_failed _ _ _ _ _ E1 E2).
    + apply (getValue_registered _ _ (new_this s) (with_isValid false V0)); [done|].
      by apply failed_state_this.
Qed.

(** X4.  [validateAll] and any number of validating methods.  Where
    [validateAll(name)] returns (it raises what
    [this.obj.hasOwnProperty(name)] raises, when the object has an own
    property of that name) and no condition raises, the field records
    exactly the messages of the methods that fail on the value, in the
    order of the calls, and [isValid] is [true] only if there is none. *)
Theorem validateAll_records_every_failure (s : State) (name : string) (trim_ : val)
    (pms : list (predicate * val)) :
  let v := Validator.initial_value (obj s) name trim_ in
  Validator.returns (obj s) name = true →
  decided v pms →
  ∃ this s',
    (c0 ← Validator.validateAll name trim_; invoke_all c0 (validating_calls pms)) s
      = (Return (Active this), s') ∧
    recorded_for s' name =
      Some (if failures v pms is [] then true else false, failures v pms) ∧
    Validator.getValue (Some name) s' = Return v.
Proof.
  intros v Hr Hd.
  set (V0 := mkValidation name v false true (new_array s)).
  set (s0 := started_state s name v false).
  assert (heap s0 !! new_this s = Some (OValidation V0)) as E1 by apply started_this.
  assert (heap s0 !! messages V0 = Some (OArray [])) as E2 by apply started_array.
  assert (validations s0 !! name = Some (new_this s)) as R by apply lookup_insert_eq.
  destruct (collect_all pms s0 _ V0 [] E1 E2 eq_refl Hd)
    as (s' & V' & Run & Rv & EV' & Hv & Hm & Hi & Ee').
  exists (new_this s), s'. rewrite bind_eq, validateAll_eq by done. fold v s0.
  split_and!; [done| |].
  - unfold recorded_for, recorded, elements_at. rewrite Rv, R, EV', Hm, Ee', Hi.
    cbn [isValid V0 value app]. by destruct (failures v pms).
  - rewrite <- Rv in R. rewrite (getValue_registered _ _ _ _ R EV'). by rewrite Hv.
Qed.

(** From a [Validation] that stops on a failure and has none yet, a chain of
    calls leaves no message or one. *)
Lemma chain_cap (ms : list method) (s : State) (this : loc) (V : Validation) :
  heap s !! this = Some (OValidation V) →
  heap s !! messages V = Some (OArray []) →
  stopOnFail V = true →
  isValid V = true →
  let r := invoke_all (Active this) ms s in
  validations r.2 = validations s ∧
  ∃ V' e, heap r.2 !! this = Some (OValidation V') ∧
          heap r.2 !! messages V' = Some (OArray e) ∧
          ((isValid V' = true ∧ e = []) ∨ (isValid V' = false ∧ ∃ message, e = [message])).
Proof.
  revert s V. induction ms as [|m ms IH]; intros s V EV Ee Hs Hv.
  - cbn. split; [done|]. exists V, []. eauto.
  - cbn [invoke_all]. rewrite bind_eq.
    pose proof (apart _ _ _ _ _ EV Ee) as Hne.
    destruct (invoke_cases s this V [] m EV Ee)
      as [E|[(ex & E & _)|[(f & v & _ & _ & E)|[(d & st & _ & E)|(p & msg & _ & _ & E)]]]];
      rewrite E.
    + by apply (IH s V).
    + cbn. split; [done|]. exists V, []. eauto.
    + apply (IH (assigned_state s this V v) (with_value v V)); [apply assigned_state_this| |done..].
      cbn. by rewrite lookup_insert_ne.
    + rewrite invoke_all_void. cbn [snd]. split; [done|].
      exists (with_value d V), []. split_and!; [apply assigned_state_this| |by left].
      cbn. by rewrite lookup_insert_ne.
    + rewrite Hs, invoke_all_void. cbn [snd]. split; [done|].
      exists (with_isValid false V), [msg].
      split_and!; [by apply failed_state_this|exact (failed_state_messages s this V [] msg)|].
      right. eauto.
Qed.

(** X5.  A chained expression on [validate] records at most one message.
    When [validate(name)] raises (as [this.obj.hasOwnProperty(name)] does,
    on an object with an own property of that name), the expression raises
    the same and the store is as before.  Otherwise, whatever methods are
    chained on the result of [validate(name)], in any number, and whether
    they return or raise, the field ends with no message and [isValid]
    [true], or with exactly one message and [isValid] [false]. *)
Theorem chain_expression_records_at_most_one (s : State) (name : string) (trim_ : val)
    (ms : list method) :
  let r := (c ← Validator.validate name trim_; invoke_all c ms) s in
  match hasOwnProperty Validator.call_value (obj s) name with
  | Throw e => r = (Throw e, s)
  | Return _ =>
      ∃ b e, recorded_for r.2 name = Some (b, e) ∧
             ((b = true ∧ e = []) ∨ (b = false ∧ ∃ message, e = [message]))
  end.
Proof.
  intros r. unfold r. rewrite bind_eq, validate_cases.
  destruct (hasOwnProperty Validator.call_value (obj s) name) as [own|ex]; [|done].
  set (v := Validator.initial_value (obj s) name trim_).
  set (V0 := mkValidation name v true true (new_array s)).
  set (s0 := started_state s name v true).
  assert (heap s0 !! new_this s = Some (OValidation V0)) as E1 by apply started_this.
  assert (heap s0 !! messages V0 = Some (OArray [])) as E2 by apply started_array.
  destruct (chain_cap ms s0 _ V0 E1 E2 eq_refl eq_refl) as (Rv & V' & e & EV' & Ee' & Hc).
  exists (isValid V'), e. split; [|destruct Hc as [[-> ->]|[-> ?]]; eauto].
  unfold recorded_for, recorded, elements_at. rewrite Rv. cbn [validations s0 started_state].
  by rewrite lookup_insert_eq, EV', Ee'.
Qed.

(** ** Invariants of a session *)

Lemma assigned_lookup (s : State) (this : loc) (V : Validation) (v : val) (l : loc) :
  heap (assigned_state s this V v) !! l =
    if decide (this = l) then Some (OValidation (with_value v V)) else heap s !! l.
Proof. apply lookup_insert. Qed.

Lemma failed_lookup (s : State) (this : loc) (V : Validation) (e : list val)
    (message : val) (l : loc) :
  heap (failed_state s this V e message) !! l =
    if decide (messages V = l) then Some (OArray (e ++ [message]))
    else if decide (this = l) then Some (OValidation (with_isValid false V))
    else heap s !! l.
Proof. cbn. rewrite lookup_insert. case_decide; [done|]. apply lookup_insert. Qed.

Lemma started_lookup (s : State) (key : string) (v : val) (stop : bool) (l : loc) :
  heap (started_state s key v stop) !! l =
    if decide (new_this s = l)
    then Some (OValidation (mkValidation key v stop true (new_array s)))
    else if decide (new_array s = l) then Some (OArray [])
    else heap s !! l.
Proof. cbn. rewrite lookup_insert. case_decide; [done|]. apply lookup_insert. Qed.

Lemma assign_lookup (s : State) (a : loc) (e : list val) (l : loc) :
  heap (assign a e s) !! l =
    match heap s !! a with
    | Some (OArray _) => if decide (a = l) then Some (OArray e) else heap s !! l
    | _ => heap s !! l
    end.
Proof.
  unfold assign. destruct (heap s !! a) as [[?|?]|]; [done| |done]. apply lookup_insert.
Qed.

Lemma invoke_dangling (s : State) (this : loc) (m : method) :
  (∀ V, heap s !! this ≠ Some (OValidation V)) →
  invoke (Active this) m s = (Throw TypeError, s).
Proof.
  intros Hn. assert (read this s = (Throw TypeError, s)) as E.
  { unfold read. destruct (heap s !! this) as [[V|?]|] eqn:E; [|done..]. by destruct (Hn V). }
  destruct m; cbn [invoke Validation.call];
    unfold Validation.validating, Validation.converting, Validation.optional_;
    by rewrite bind_eq, E.
Qed.

Lemma getMessages_grows (s : State) (key : option string) :
  wf s → grows s (Validator.getMessages key s).2.
Proof.
  intros [Hs R]. destruct key as [key|]; cbn [Validator.getMessages].
  - rewrite bind_eq, hasFailures_key. destruct (shadowed s); [apply grows_refl|].
    destruct (validations s !! key) as [this|] eqn:E.
    + destruct (R _ _ E) as [V EV]. rewrite EV. destruct (isValid V); cbn [negb].
      * rewrite bind_eq. unfold alloc. cbn.
        apply (new_array_grows s (fresh (dom (heap s))) []); [|done].
        apply not_elem_of_dom. apply is_fresh.
      * rewrite bind_eq. unfold gets. rewrite E, bind_eq, (read_eq _ _ _ EV).
        apply grows_refl.
    + rewrite bind_eq. unfold gets. rewrite E. unfold Validator.messages_of_missing.
      destruct (on_prototype key); apply grows_refl.
  - rewrite bind_eq. unfold gets.
    assert (Forall (λ p, ∃ V, heap s !! p.2 = Some (OValidation V))
              (map_to_list (validations s))) as Hl.
    { apply Forall_forall. intros [k this] Hin%elem_of_map_to_list. by eapply R. }
    destruct (slice_all_spec _ s Hs Hl) as (m & s' & Run & _ & G & _).
    by rewrite bind_eq, Run.
Qed.

(** An action of the library is quiet. *)
Lemma step_quiet (s : State) (act : action) :
  wf s → assigns act = false → quiet s (step s act).
Proof.
  intros W Ha. destruct act as [key t|key t|c m|key|a e]; cbn [step]; [..|done].
  - rewrite validate_cases.
    destruct (hasOwnProperty Validator.call_value (obj s) key) eqn:C;
      [|apply quiet_grows, grows_refl].
    apply quiet_started. unfold Validator.returns. by rewrite C.
  - rewrite validateAll_cases.
    destruct (hasOwnProperty Validator.call_value (obj s) key) eqn:C;
      [|apply quiet_grows, grows_refl].
    apply quiet_started. unfold Validator.returns. by rewrite C.
  - destruct c as [this|v]; [|apply quiet_grows, grows_refl].
    destruct (heap s !! this) as [[V|?]|] eqn:EV;
      [|rewrite invoke_dangling by (intros V; congruence); apply quiet_grows, grows_refl..].
    destruct (proj1 W _ _ EV) as [e Ee].
    destruct (invoke_cases s this V e m EV Ee)
      as [E|[(ex & E & _)|[(f & v & _ & _ & E)|[(d & st & _ & E)|(p & msg & _ & _ & E)]]]];
      rewrite E; cbn [snd].
    + apply quiet_grows, grows_refl.
    + apply quiet_grows, grows_refl.
    + by apply quiet_assigned.
    + by apply quiet_assigned.
    + by apply quiet_failed.
  - apply quiet_grows. by apply getMessages_grows.
Qed.

Lemma later_refl (s : State) : later s s.
Proof. intros this V E. exists V. eauto. Qed.

Lemma later_trans (s1 s2 s3 : State) : later s1 s2 → later s2 s3 → later s1 s3.
Proof.
  intros L1 L2 this V E. destruct (L1 _ _ E) as (V' & E' & K & S & Ms & I).
  destruct (L2 _ _ E') as (V'' & E'' & K' & S' & Ms' & I').
  exists V''. split_and!; [done|congruence..|eauto].
Qed.

Lemma quiet_later (s s' : State) : quiet s s' → later s s'.
Proof.
  intros Q. destruct Q as [s2 (_ & _ & U & _)|key v stop Hr|this V v EV|this V e message EV Ee];
    intros r W E.
  - exists W. rewrite U by (by rewrite E). eauto.
  - exists W. rewrite started_old by (by rewrite E). eauto.
  - rewrite assigned_lookup. case_decide as Hd.
    + subst. rewrite EV in E. injection E as <-. exists (with_value v V). eauto.
    + exists W. eauto.
  - rewrite failed_lookup. case_decide as Hd; [subst; congruence|].
    case_decide as Hd'.
    + subst. rewrite EV in E. injection E as <-. exists (with_isValid false V). eauto.
    + exists W. eauto.
Qed.

Lemma assign_later (s : State) (a : loc) (e : list val) : later s (assign a e s).
Proof.
  intros r W E. exists W. rewrite assign_lookup.
  destruct (heap s !! a) as [[?|?]|] eqn:Ea; [eauto| |eauto].
  case_decide; [subst; congruence|eauto].
Qed.

Lemma appended_refl (s : State) : appended s s.
Proof. intros a e E. exists e. eauto. Qed.

Lemma appended_trans (s1 s2 s3 : State) : appended s1 s2 → appended s2 s3 → appended s1 s3.
Proof.
  intros A1 A2 a e E. destruct (A1 _ _ E) as (e' & E' & P).
  destruct (A2 _ _ E') as (e'' & E'' & P'). exists e''. split; [done|]. by etrans.
Qed.

Lemma quiet_appended (s s' : State) : quiet s s' → appended s s'.
Proof.
  intros Q. destruct Q as [s2 (_ & _ & U & _)|key v stop Hr|this V v EV|this V e message EV Ee];
    intros a e0 E.
  - exists e0. rewrite U by (by rewrite E). eauto.
  - exists e0. rewrite started_old by (by rewrite E). eauto.
  - exists e0. rewrite assigned_lookup. case_decide; [subst; congruence|eauto].
  - rewrite failed_lookup. case_decide as Hd.
    + subst. rewrite Ee in E. injection E as <-. eexists. split; [done|].
      by apply prefix_app_r.
    + case_decide; [subst; congruence|]. exists e0. eauto.
Qed.

Lemma grows_validation (s s' : State) (r : loc) (V : Validation) :
  grows s s' → heap s' !! r = Some (OValidation V) → heap s !! r = Some (OValidation V).
Proof.
  intros (_ & _ & U & N) E. destruct (heap s !! r) as [x|] eqn:Er.
  - rewrite U, Er in E by (by rewrite Er). done.
  - destruct (N _ Er) as [E'|[e E']]; congruence.
Qed.

Lemma assign_validation (s : State) (a : loc) (e : list val) (r : loc) (V : Validation) :
  heap (assign a e s) !! r = Some (OValidation V) ↔ heap s !! r = Some (OValidation V).
Proof.
  rewrite assign_lookup. destruct (heap s !! a) as [[?|?]|] eqn:Ea; [done| |done].
  case_decide; [|done]. subst. split; congruence.
Qed.

Lemma fresh_array_unused (s : State) (r : loc) (V : Validation) :
  heap_ok s → heap s !! r = Some (OValidation V) → messages V ≠ new_array s.
Proof.
  intros Hs E Hm. destruct (Hs _ _ E) as [l El]. by rewrite Hm, new_array_fresh in El.
Qed.

(** A step of a session either is quiet or is an assignment of the
    caller. *)
Lemma effect (s : State) (act : action) :
  wf s → quiet s (step s act) ∨ ∃ a e, step s act = assign a e s.
Proof.
  intros W. destruct (assigns act) eqn:A; [|left; by apply step_quiet].
  destruct act; try discriminate. right. eauto.
Qed.

Lemma quiet_distinct_arrays (s s' : State) :
  heap_ok s → distinct_arrays s → quiet s s' → distinct_arrays s'.
Proof.
  intros Hs D Q.
  destruct Q as [s2 G|key v stop Hr|this V v EV|this V e message EV Ee];
    intros r1 r2 V1 V2 E1 E2 Hm.
  - apply (D r1 r2 V1 V2); [by eapply grows_validation..|done].
  - rewrite started_lookup in E1, E2.
    destruct (decide (new_this s = r1)) as [<-|N1], (decide (new_this s = r2)) as [<-|N2];
      [done|..].
    + injection E1 as <-. cbn [messages] in Hm.
      destruct (decide (new_array s = r2)); [done|].
      by destruct (fresh_array_unused s r2 V2).
    + injection E2 as <-. cbn [messages] in Hm.
      destruct (decide (new_array s = r1)); [done|].
      by destruct (fresh_array_unused s r1 V1).
    + destruct (decide (new_array s = r1)); [done|].
      destruct (decide (new_array s = r2)); [done|]. by apply (D r1 r2 V1 V2).
  - rewrite assigned_lookup in E1, E2.
    destruct (decide (this = r1)) as [<-|N1], (decide (this = r2)) as [<-|N2]; [done|..].
    + injection E1 as <-. by apply (D this r2 V V2).
    + injection E2 as <-. by apply (D r1 this V1 V).
    + by apply (D r1 r2 V1 V2).
  - rewrite failed_lookup in E1, E2.
    destruct (decide (messages V = r1)); [done|].
    destruct (decide (messages V = r2)); [done|].
    destruct (decide (this = r1)) as [<-|N1], (decide (this = r2)) as [<-|N2]; [done|..].
    + injection E1 as <-. by apply (D this r2 V V2).
    + injection E2 as <-. by apply (D r1 this V1 V).
    + by apply (D r1 r2 V1 V2).
Qed.

Lemma assign_distinct_arrays (s : State) (a : loc) (e : list val) :
  distinct_arrays s → distinct_arrays (assign a e s).
Proof.
  intros D r1 r2 V1 V2 E1%assign_validation E2%assign_validation. by apply D.
Qed.

Lemma quiet_distinct_chains (s s' : State) :
  wf s → distinct_chains s → quiet s s' → distinct_chains s'.
Proof.
  intros [_ R] D Q.
  destruct Q as [s2 (_ & Ev & _)|key v stop Hr|this V v EV|this V e message EV Ee];
    [unfold distinct_chains; by rewrite Ev| |done..].
  intros k1 k2 this. cbn [validations started_state].
  intros [[<- <-]|[N1 E1]]%lookup_insert_Some [[<- E]|[N2 E2]]%lookup_insert_Some; [done|..].
  - destruct (R _ _ E2) as [V EV]. by rewrite new_this_fresh in EV.
  - subst. destruct (R _ _ E1) as [V EV]. by rewrite new_this_fresh in EV.
  - by apply (D k1 k2 this).
Qed.

Lemma assign_validations (s : State) (a : loc) (e : list val) :
  validations (assign a e s) = validations s.
Proof. unfold assign. by destruct (heap s !! a) as [[?|?]|]. Qed.

Lemma quiet_keyed (s s' : State) : wf s → keyed s → quiet s s' → keyed s'.
Proof.
  intros [_ R] K Q.
  destruct Q as [s2 G|key v stop Hr|this V v EV|this V e message EV Ee]; intros k r W.
  - pose proof G as (_ & -> & _). intros Ek E%(grows_validation _ _ _ _ G).
    by apply (K k r W).
  - cbn [validations started_state]. intros [[<- <-]|[N1 Ek]]%lookup_insert_Some.
    + rewrite started_this. by intros [= <-].
    + destruct (R _ _ Ek) as [V EV]. rewrite started_old, EV by (by rewrite EV).
      intros [= <-]. by apply (K k r V).
  - cbn [validations assigned_state set_heap]. intros Ek. rewrite assigned_lookup.
    destruct (decide (this = r)) as [<-|N1].
    + intros [= <-]. by apply (K k this V).
    + by apply (K k r W).
  - cbn [validations failed_state set_heap]. intros Ek. rewrite failed_lookup.
    destruct (decide (messages V = r)); [done|].
    destruct (decide (this = r)) as [<-|N1].
    + intros [= <-]. by apply (K k this V).
    + by apply (K k r W).
Qed.

Lemma step_ok (s : State) (act : action) : session_ok s → session_ok (step s act).
Proof.
  intros (W & Da & Dc & K). destruct (step_inv s act W) as (W' & _ & _). split; [done|].
  destruct (effect s act W) as [Q|(a & e & E)].
  - split_and!; [by apply (quiet_distinct_arrays s); [apply W|..]|
                 by apply (quiet_distinct_chains s)|by apply (quiet_keyed s)].
  - rewrite E. split_and!; [by apply assign_distinct_arrays|..].
    + unfold distinct_chains. by rewrite assign_validations.
    + intros k r V. rewrite assign_validations, assign_validation. apply K.
Qed.

Lemma run_ok (s : State) (acts : list action) : session_ok s → session_ok (run s acts).
Proof.
  revert s. induction acts as [|act acts IH]; intros s Hs; [done|].
  change (run s (act :: acts)) with (run (step s act) acts). by apply IH, step_ok.
Qed.

Lemma new_ok (o : gmap string val) : session_ok (Validator.new o).
Proof.
  split; [apply wf_new|]. split_and!.
  - intros r1 r2 V1 V2 E. cbn in E. by rewrite lookup_empty in E.
  - intros k1 k2 this E. cbn in E. by rewrite lookup_empty in E.
  - intros k this V E. cbn in E. by rewrite lookup_empty in E.
Qed.

Lemma run_later (s : State) (acts : list action) : wf s → later s (run s acts).
Proof.
  revert s. induction acts as [|act acts IH]; intros s W; [apply later_refl|].
  change (run s (act :: acts)) with (run (step s act) acts).
  apply (later_trans _ (step s act)); [|apply IH, step_inv, W].
  destruct (effect s act W) as [Q|(a & e & ->)]; [by apply quiet_later|apply assign_later].
Qed.

Lemma run_appended (s : State) (acts : list action) :
  wf s → existsb assigns acts = false → appended s (run s acts).
Proof.
  revert s. induction acts as [|act acts IH]; intros s W A; [apply appended_refl|].
  cbn [existsb] in A. apply orb_false_iff in A as [A1 A2].
  change (run s (act :: acts)) with (run (step s act) acts).
  apply (appended_trans _ (step s act)); [|apply IH; [apply step_inv, W|done]].
  by apply quiet_appended, step_quiet.
Qed.

Lemma quiet_consistent (s s' : State) :
  heap_ok s → distinct_arrays s → consistent s → quiet s s' → consistent s'.
Proof.
  intros Hs D C Q.
  destruct Q as [s2 G|key v stop Hr|this V v EV|this V e message EV Ee];
    intros r W l E El.
  - apply (grows_validation _ _ _ _ G) in E. destruct (Hs _ _ E) as [l0 El0].
    destruct G as (_ & _ & U & _). rewrite U, El0 in El by (by rewrite El0).
    injection El as <-. by apply (C r W).
  - rewrite started_lookup in E. destruct (decide (new_this s = r)) as [<-|N1].
    + injection E as <-. cbn [messages] in El. rewrite started_array in El.
      by injection El as <-.
    + destruct (decide (new_array s = r)); [done|].
      destruct (Hs _ _ E) as [l0 El0].
      rewrite started_old, El0 in El by (by rewrite El0). injection El as <-.
      by apply (C r W).
  - rewrite assigned_lookup in E, El. destruct (decide (this = r)) as [<-|N1].
    + injection E as <-. cbn [messages with_value isValid] in *.
      destruct (decide (this = messages V)); [done|]. by apply (C this V).
    + destruct (decide (this = messages W)); [done|]. by apply (C r W).
  - rewrite failed_lookup in E, El. destruct (decide (messages V = r)); [done|].
    destruct (decide (this = r)) as [<-|N1].
    + injection E as <-. cbn [messages with_isValid isValid] in *.
      rewrite decide_True in El by done. injection El as <-.
      split; [done|]. by intros [_ ?]%app_eq_nil.
    + destruct (decide (messages V = messages W)) as [Hm|Hm].
      { by destruct N1, (D this r V W). }
      destruct (decide (this = messages W)); [done|]. by apply (C r W).
Qed.

Lemma run_consistent (s : State) (acts : list action) :
  session_ok s → existsb assigns acts = false → consistent s → consistent (run s acts).
Proof.
  revert s. induction acts as [|act acts IH]; intros s Hs A C; [done|].
  cbn [existsb] in A. apply orb_false_iff in A as [A1 A2].
  change (run s (act :: acts)) with (run (step s act) acts).
  apply IH; [by apply step_ok|done|].
  destruct Hs as (W & Da & _ & _).
  apply (quiet_consistent s); [apply W|done..|by apply step_quiet].
Qed.

Lemma recorded_Some (s : State) (this : loc) (b : bool) (e : list val) :
  recorded s this = Some (b, e) ↔
  ∃ V, heap s !! this = Some (OValidation V) ∧ heap s !! messages V = Some (OArray e) ∧
       isValid V = b.
Proof.
  unfold recorded, elements_at. split.
  - destruct (heap s !! this) as [[V|?]|] eqn:E; [|done..].
    destruct (heap s !! messages V) as [[?|l]|] eqn:El; [done| |done].
    intros [= <- <-]. eauto.
  - intros (V & -> & -> & <-). done.
Qed.

(** ** Sessions *)

(** X6.  The history of a chain is kept.  Whatever a session does after a
    chain has failed (calls on any chain, validations of any key, queries,
    assignments of the caller), that chain stays failed; and as long as the
    caller assigns to no array, the messages of a chain only grow at the
    end. *)
Theorem chain_history_is_kept (o : gmap string val) (acts more : list action)
    (this : loc) (b : bool) (e : list val) :
  let s := run (Validator.new o) acts in
  recorded s this = Some (b, e) →
  ∃ b' e', recorded (run s more) this = Some (b', e') ∧
           (b = false → b' = false) ∧
           (existsb assigns more = false → e `prefix_of` e').
Proof.
  intros s (V & EV & Ee & Hb)%recorded_Some.
  destruct (session_inv o acts) as (W & _ & _). fold s in W.
  destruct (run_inv s more W) as ([Hs' _] & _ & _).
  destruct (run_later s more W _ _ EV) as (V' & EV' & _ & _ & Hm & Hi).
  destruct (Hs' _ _ EV') as [e' Ee'].
  exists (isValid V'), e'. split_and!.
  - apply recorded_Some. eauto.
  - intros ->. by apply Hi.
  - intros A. destruct (run_appended s more W A _ _ Ee) as (e'' & Ee'' & P).
    rewrite Hm, Ee'' in Ee'. by injection Ee' as <-.
Qed.

(** X7.  [isValid] tells whether there are messages.  In a session in which
    the caller assigns to no array, a chain has [isValid] [true] exactly
    when it has no message. *)
Theorem isValid_iff_no_message (o : gmap string val) (acts : list action)
    (this : loc) (b : bool) (e : list val) :
  existsb assigns acts = false →
  recorded (run (Validator.new o) acts) this = Some (b, e) →
  (b = true ↔ e = []).
Proof.
  intros A (V & EV & Ee & <-)%recorded_Some.
  apply (run_consistent (Validator.new o) acts (new_ok o) A) with this; [|done..].
  intros r W l E. cbn in E. by rewrite lookup_empty in E.
Qed.

Lemma session_ok_run (o : gmap string val) (acts : list action) :
  session_ok (run (Validator.new o) acts).
Proof. apply run_ok, new_ok. Qed.

Lemma consistent_new (o : gmap string val) : consistent (Validator.new o).
Proof. intros r W l E. cbn in E. by rewrite lookup_empty in E. Qed.

(** A call on one chain leaves any other [Validation] as it is. *)
Lemma invoke_elsewhere (s : State) (this r : loc) (W : Validation) (m : method) :
  heap_ok s → distinct_arrays s → r ≠ this → heap s !! r = Some (OValidation W) →
  let s' := (invoke (Active this) m s).2 in
  heap s' !! r = Some (OValidation W) ∧ recorded s' r = recorded s r.
Proof.
  intros Hs D N EW s'. unfold s'.
  destruct (heap s !! this) as [[V|?]|] eqn:EV;
    [|rewrite invoke_dangling by (intros V; congruence); done..].
  destruct (Hs _ _ EV) as [e Ee]. destruct (Hs _ _ EW) as [l El].
  assert (r ≠ messages V) as N1 by (intros ->; congruence).
  assert (messages W ≠ this) as N2 by (intros Hm; rewrite Hm in El; congruence).
  assert (messages W ≠ messages V) as N3 by (intros Hm; destruct N; by apply (D r this W V)).
  pose proof (invoke_frame s this V e m r EV Ee N N1) as F1.
  pose proof (invoke_frame s this V e m (messages W) EV Ee N2 N3) as F2.
  split; [by rewrite F1|]. unfold recorded, elements_at. by rewrite F1, EW, F2.
Qed.

Lemma recorded_started (s : State) (key : string) (v : val) (stop : bool) (r : loc)
    (W : Validation) :
  heap_ok s → heap s !! r = Some (OValidation W) →
  heap (started_state s key v stop) !! r = Some (OValidation W) ∧
  recorded (started_state s key v stop) r = recorded s r.
Proof.
  intros Hs EW. destruct (Hs _ _ EW) as [l El].
  assert (heap (started_state s key v stop) !! r = Some (OValidation W)) as E1
    by (by rewrite started_old by (by rewrite EW)).
  split; [done|]. unfold recorded, elements_at.
  by rewrite E1, EW, started_old by (by rewrite El).
Qed.

(** X8.  [getMessages(name)] of a validated key.  In a session in which the
    caller assigns to no array and no call of [validate] or [validateAll]
    returned for the key [hasOwnProperty] (after one, [hasFailures(name)]
    and [getMessages(name)] raise a [TypeError] for every name),
    [getMessages(name)] for a key for which such a call returned raises
    nothing and returns an array with exactly the messages recorded for the
    key, and [hasFailures(name)] is [true] exactly when there is one; the
    call changes what is recorded for no key. *)
Theorem getMessages_of_validated_key (o : gmap string val) (acts : list action)
    (name : string) :
  existsb assigns acts = false →
  name ∈ returned o acts →
  "hasOwnProperty" ∉ returned o acts →
  let s := run (Validator.new o) acts in
  ∃ e a s',
    recorded_for s name = Some (bool_decide (e = []), e) ∧
    Validator.hasFailures (Some name) s = Return (negb (bool_decide (e = []))) ∧
    Validator.getMessages (Some name) s = (Return (MArray a), s') ∧
    elements_at s' a = Some e ∧
    ∀ key, recorded_for s' key = recorded_for s key.
Proof.
  intros A Hn Hh s. destruct (session_inv o acts) as (W & _ & D). fold s in W, D.
  rewrite <- D in Hn, Hh. apply elem_of_dom in Hn as [this E].
  assert (shadowed s = false) as Sh by (by apply shadowed_false, not_elem_of_dom).
  destruct W as [Hs R]. destruct (R _ _ E) as [V EV]. destruct (Hs _ _ EV) as [e Ee].
  pose proof (run_consistent _ acts (new_ok o) A (consistent_new o) this V e EV Ee) as C.
  assert (isValid V = bool_decide (e = [])) as Hv.
  { destruct (isValid V); symmetry; [apply bool_decide_eq_true, C; done|].
    apply bool_decide_eq_false. intros He%C. done. }
  assert (recorded_for s name = Some (bool_decide (e = []), e)) as Rec.
  { unfold recorded_for, recorded, elements_at. by rewrite E, EV, Ee, Hv. }
  pose proof (hasFailures_registered _ _ _ _ Sh E EV) as HF. rewrite Hv in HF.
  destruct (isValid V) eqn:Hi.
  - symmetry in Hv. apply bool_decide_eq_true in Hv as ->.
    exists [], (new_array s), (set_heap (<[new_array s := OArray []]> (heap s)) s).
    split_and!; [done..| | |].
    + unfold Validator.getMessages. by rewrite bind_eq, HF.
    + unfold elements_at. cbn. by rewrite lookup_insert_eq.
    + intros key. unfold recorded_for. cbn [validations set_heap].
      destruct (validations s !! key); [|done].
      apply recorded_grows; [done|]. by apply new_array_grows; [apply new_array_fresh|].
  - exists e, (messages V), s. split_and!; [done..| | |done].
    + by apply (getMessages_failed _ _ this).
    + unfold elements_at. by rewrite Ee.
Qed.

(** X9.  Fields share nothing.  The chains registered for two keys are two
    [Validation]s with two arrays of messages, each with the key it is
    registered for. *)
Theorem fields_share_nothing (o : gmap string val) (acts : list action)
    (k1 k2 : string) (r1 r2 : loc) :
  let s := run (Validator.new o) acts in
  k1 ≠ k2 →
  validations s !! k1 = Some r1 →
  validations s !! k2 = Some r2 →
  r1 ≠ r2 ∧
  ∃ V1 V2, heap s !! r1 = Some (OValidation V1) ∧ heap s !! r2 = Some (OValidation V2) ∧
           key V1 = k1 ∧ key V2 = k2 ∧ messages V1 ≠ messages V2.
Proof.
  intros s N E1 E2. destruct (session_ok_run o acts) as ([_ R] & Da & Dc & K).
  fold s in R, Da, Dc, K.
  assert (r1 ≠ r2) as Nr by (intros ->; by apply N, (Dc k1 k2 r2)).
  split; [done|]. destruct (R _ _ E1) as [V1 EV1], (R _ _ E2) as [V2 EV2].
  exists V1, V2. split_and!; [done..|by apply (K k1 r1)|by apply (K k2 r2)|].
  intros Hm. by apply Nr, (Da r1 r2 V1 V2).
Qed.

(** X10.  A call touches one field.  A method called on a chain that is not
    the one registered for [name] (the chain of another key, or one that a
    later [validate(name)] has replaced) changes nothing of what is
    recorded for [name], nor its value. *)
Theorem call_leaves_other_fields (o : gmap string val) (acts : list action)
    (this : loc) (name : string) (m : method) :
  let s := run (Validator.new o) acts in
  validations s !! name ≠ Some this →
  let s' := (invoke (Active this) m s).2 in
  recorded_for s' name = recorded_for s name ∧
  Validator.getValue (Some name) s' = Validator.getValue (Some name) s ∧
  Validator.hasFailures (Some name) s' = Validator.hasFailures (Some name) s.
Proof.
  intros s N s'. destruct (session_ok_run o acts) as ([Hs R] & Da & _). fold s in Hs, R, Da.
  destruct (invoke_validator s (Active this) m) as [_ Ev]. fold s' in Ev.
  rewrite !hasFailures_key. unfold recorded_for, Validator.getValue, shadowed. rewrite Ev.
  destruct (validations s !! name) as [r|] eqn:E; [|done].
  destruct (R _ _ E) as [W EW].
  assert (r ≠ this) as Nr by congruence.
  destruct (invoke_elsewhere s this r W m Hs Da Nr EW) as [E1 E2]. fold s' in E1, E2.
  by rewrite E1, E2, EW.
Qed.

Lemma start_cases (all : bool) (s : State) (name : string) (trim_ : val) :
  start all name trim_ s =
    match hasOwnProperty Validator.call_value (obj s) name with
    | Return _ =>
        (Return (Active (new_this s)),
         started_state s name (Validator.initial_value (obj s) name trim_) (negb all))
    | Throw e => (Throw e, s)
    end.
Proof. destruct all; [apply validateAll_cases|apply validate_cases]. Qed.

Lemma start_eq (all : bool) (s : State) (name : string) (trim_ : val) :
  Validator.returns (obj s) name = true →
  start all name trim_ s =
    (Return (Active (new_this s)),
     started_state s name (Validator.initial_value (obj s) name trim_) (negb all)).
Proof. intros Hr. destruct all; [by apply validateAll_eq|by apply validate_eq]. Qed.

(** For a registered key [addValidation] returns: it did. *)
Lemma registered_returns (o : gmap string val) (acts : list action) (name : string)
    (this : loc) :
  validations (run (Validator.new o) acts) !! name = Some this →
  Validator.returns o name = true.
Proof.
  intros E. destruct (session_inv o acts) as (_ & _ & D).
  assert (name ∈ returned o acts) as Hin by (rewrite <- D; apply elem_of_dom; eauto).
  by apply elem_of_returned in Hin as [_ Hr].
Qed.

(** X11.  Validating a key again starts anew.  [validate(name)] or
    [validateAll(name)] for a key that was validated before registers a new
    chain: nothing is recorded for the key any more and its value is again
    that of the object, while the chain registered before keeps what it
    had; a method called on that one no longer changes the field.  Other
    keys are as before. *)
Theorem validate_again_starts_anew (o : gmap string val) (acts : list action)
    (name : string) (trim_ : val) (all : bool) (old : loc) (m : method) :
  let s := run (Validator.new o) acts in
  validations s !! name = Some old →
  let r := start all name trim_ s in
  (∃ this, r.1 = Return (Active this) ∧ this ≠ old) ∧
  recorded_for r.2 name = Some (true, []) ∧
  Validator.getValue (Some name) r.2 = Return (Validator.initial_value o name trim_) ∧
  recorded r.2 old = recorded s old ∧
  (∀ key, key ≠ name → recorded_for r.2 key = recorded_for s key) ∧
  let s2 := (invoke (Active old) m r.2).2 in
  recorded_for s2 name = Some (true, []) ∧
  Validator.getValue (Some name) s2 = Return (Validator.initial_value o name trim_).
Proof.
  intros s E r.
  destruct (session_inv o acts) as (_ & O & _). fold s in O.
  destruct (session_ok_run o acts) as ([Hs R] & Da & Dc & K). fold s in Hs, R, Da, Dc, K.
  set (v := Validator.initial_value o name trim_).
  set (V0 := mkValidation name v (negb all) true (new_array s)).
  set (s1 := started_state s name v (negb all)).
  pose proof (registered_returns o acts name old E) as Hr. rewrite <- O in Hr.
  assert (r = (Return (Active (new_this s)), s1)) as ->.
  { unfold r, s1, v. rewrite <- O. by apply start_eq. }
  assert (session_ok s1) as (W1 & Da1 & _).
  { destruct all.
    - pose proof (step_ok s (DoValidateAll name trim_) (session_ok_run o acts)) as S.
      cbn [step] in S. by rewrite validateAll_eq, O in S by done.
    - pose proof (step_ok s (DoValidate name trim_) (session_ok_run o acts)) as S.
      cbn [step] in S. by rewrite validate_eq, O in S by done. }
  cbn [fst snd].
  destruct (R _ _ E) as [W EW].
  assert (new_this s ≠ old) as N by (intros Hn; by rewrite <- Hn, new_this_fresh in EW).
  assert (heap s1 !! new_this s = Some (OValidation V0)) as E1 by apply started_this.
  assert (heap s1 !! messages V0 = Some (OArray [])) as E2 by apply started_array.
  assert (validations s1 !! name = Some (new_this s)) as R1 by apply lookup_insert_eq.
  assert (recorded s1 (new_this s) = Some (true, [])) as Rec
    by (unfold recorded, elements_at; by rewrite E1, E2).
  split_and!.
  - by exists (new_this s).
  - unfold recorded_for. by rewrite R1.
  - by apply (getValue_registered _ _ (new_this s) V0).
  - by apply (recorded_started s name v (negb all) old W).
  - intros key Hk. unfold recorded_for. cbn [validations s1 started_state].
    rewrite lookup_insert_ne by done.
    destruct (validations s !! key) as [r0|] eqn:E0; [|done].
    destruct (R _ _ E0) as [W0 EW0]. by apply (recorded_started s name v (negb all) r0 W0).
  - destruct (invoke_validator s1 (Active old) m) as [_ Ev].
    destruct (invoke_elsewhere s1 old (new_this s) V0 m (proj1 W1) Da1 N E1) as [F1 F2].
    unfold recorded_for. by rewrite Ev, R1, F2.
  - destruct (invoke_validator s1 (Active old) m) as [_ Ev].
    destruct (invoke_elsewhere s1 old (new_this s) V0 m (proj1 W1) Da1 N E1) as [F1 F2].
    by apply (getValue_registered _ _ (new_this s) V0); [rewrite Ev|].
Qed.



Lemma every_isValid_spec (s : State) (l : list (string * loc)) :
  Forall (λ p, ∃ V, heap s !! p.2 = Some (OValidation V)) l →
  ∃ b, Validator.every_isValid s l = Return b ∧
       (b = false ↔ ∃ k this V, (k, this) ∈ l ∧ heap s !! this = Some (OValidation V) ∧
                                isValid V = false).
Proof.
  induction l as [|[k this] l IH]; intros Hl.
  - exists true. split; [done|]. split; [done|]. by intros (? & ? & ? & ?%elem_of_nil & _).
  - apply Forall_cons in Hl as [[V EV] Hl]. cbn [snd] in EV.
    destruct (IH Hl) as (b & Eb & Hb). cbn [Validator.every_isValid]. rewrite EV.
    destruct (isValid V) eqn:Hv.
    + exists b. split; [done|]. rewrite Hb. split.
      * intros (k' & r & W & Hin & EW & HW). exists k', r, W.
        split; [by apply elem_of_cons; right|done].
      * intros (k' & r & W & Hin & EW & HW). apply elem_of_cons in Hin as [[= -> ->]|Hin].
        { congruence. }
        eauto 10.
    + exists false. split; [done|]. split; [|done]. intros _.
      exists k, this, V. split; [by apply elem_of_cons; left|done].
Qed.

Lemma hasFailures_spec (s : State) :
  wf s →
  ∃ b, Validator.hasFailures None s = Return b ∧
       (b = true ↔ ∃ name e, recorded_for s name = Some (false, e)).
Proof.
  intros [Hs R].
  assert (Forall (λ p, ∃ V, heap s !! p.2 = Some (OValidation V))
            (map_to_list (validations s))) as Hl.
  { apply Forall_forall. intros [k this] Hin%elem_of_map_to_list. by eapply R. }
  destruct (every_isValid_spec s _ Hl) as (b & Eb & Hb).
  exists (negb b). unfold Validator.hasFailures. rewrite Eb. split; [done|].
  rewrite negb_true_iff, Hb. split.
  - intros (k & this & V & Hin%elem_of_map_to_list & EV & Hv).
    destruct (Hs _ _ EV) as [e Ee]. exists k, e. unfold recorded_for. rewrite Hin.
    apply recorded_Some. eauto.
  - intros (name & e & Rec). unfold recorded_for in Rec.
    destruct (validations s !! name) as [this|] eqn:E; [|done].
    apply recorded_Some in Rec as (V & EV & _ & Hv).
    exists name, this, V. split; [by apply elem_of_map_to_list|done].
Qed.

(** X13.  [hasFailures()].  In a session [hasFailures()] without a name raises
    nothing, and is [true] exactly when the chain registered for some key
    has failed.  (A key that was never validated does not count, though
    [hasFailures(name)] is [true] for it.) *)
Theorem hasFailures_iff_some_field_failed (o : gmap string val) (acts : list action) :
  let s := run (Validator.new o) acts in
  ∃ b, Validator.hasFailures None s = Return b ∧
       (b = true ↔ ∃ name e, recorded_for s name = Some (false, e)).
Proof.
  intros s. apply hasFailures_spec. by destruct (session_inv o acts) as (W & _).
Qed.

(** ** The value of a chain *)

Lemma chain_value (ms : list method) (s : State) (this : loc) (V : Validation)
    (e : list val) (c : chain) (s' : State) :
  heap s !! this = Some (OValidation V) →
  heap s !! messages V = Some (OArray e) →
  invoke_all (Active this) ms s = (Return c, s') →
  validations s' = validations s ∧
  ∃ V', heap s' !! this = Some (OValidation V') ∧ (c = Active this ∨ c = Void (value V')).
Proof.
  revert s V e. induction ms as [|m ms IH]; intros s V e EV Ee Run.
  - injection Run as <- <-. eauto.
  - cbn [invoke_all] in Run. rewrite bind_eq in Run.
    pose proof (apart _ _ _ _ _ EV Ee) as Hne.
    destruct (invoke_cases s this V e m EV Ee)
      as [E|[(ex & E & _)|[(f & v & _ & _ & E)|[(d & st & _ & E)|(p & msg & _ & _ & E)]]]];
      rewrite E in Run.
    + by apply (IH s V e).
    + done.
    + apply (IH (assigned_state s this V v) (with_value v V) e) in Run;
        [done|apply assigned_state_this|].
      cbn. by rewrite lookup_insert_ne.
    + rewrite invoke_all_void in Run. injection Run as <- <-. split; [done|].
      exists (with_value d V). split; [apply assigned_state_this|by right].
    + destruct (stopOnFail V).
      * rewrite invoke_all_void in Run. injection Run as <- <-. split; [done|].
        exists (with_isValid false V). split; [by apply failed_state_this|by right].
      * apply (IH (failed_state s this V e msg) (with_isValid false V) (e ++ [msg])) in Run;
          [done|by apply failed_state_this|].
        exact (failed_state_messages s this V e msg).
Qed.

(** X14.  The chain and the [Validator] agree on the value.  When a chained
    expression on [validate(name)] or [validateAll(name)] returns,
    [getValue()] on the chain it returns (a [Validation] or a
    [VoidValidation]) is [getValue(name)] of the [Validator]. *)
Theorem chain_value_is_field_value (s : State) (all : bool) (name : string)
    (trim_ : val) (ms : list method) (c : chain) (s' : State) :
  (c0 ← start all name trim_; invoke_all c0 ms) s = (Return c, s') →
  ∃ v, chain_getValue c s' = (Return v, s') ∧
       Validator.getValue (Some name) s' = Return v.
Proof.
  rewrite bind_eq, start_cases.
  destruct (hasOwnProperty Validator.call_value (obj s) name) as [own|ex]; [|done].
  set (v0 := Validator.initial_value (obj s) name trim_).
  set (V0 := mkValidation name v0 (negb all) true (new_array s)).
  set (s0 := started_state s name v0 (negb all)).
  assert (heap s0 !! new_this s = Some (OValidation V0)) as E1 by apply started_this.
  assert (heap s0 !! messages V0 = Some (OArray [])) as E2 by apply started_array.
  assert (validations s0 !! name = Some (new_this s)) as R by apply lookup_insert_eq.
  intros Run. destruct (chain_value ms s0 _ V0 [] c s' E1 E2 Run) as (Rv & V' & EV' & Hc).
  exists (value V'). rewrite <- Rv in R.
  split; [|by apply (getValue_registered _ _ (new_this s) V')].
  destruct Hc as [-> | ->]; [|done].
  cbn [chain_getValue]. unfold Validation.getValue. by rewrite bind_eq, (read_eq _ _ _ EV').
Qed.

(** ** Values that no call assigns *)






(** ** The middleware *)

(** X16.  [req.hasFailures] takes no name.  On a request, [req.hasFailures]
    called with a name or without raises nothing and is [true] exactly when
    the chain registered for some parameter has failed, whether that is
    the named one or not. *)
Theorem request_hasFailures_ignores_name (req : Request) (acts : list action)
    (name : option string) :
  let s := run (Middleware.validator req) acts in
  ∃ b, Middleware.hasFailures name s = Return b ∧
       (b = true ↔ ∃ key e, recorded_for s key = Some (false, e)).
Proof.
  intros s. unfold Middleware.hasFailures. apply hasFailures_spec.
  by destruct (session_inv (obj (Middleware.validator req)) acts) as (W & _).
Qed.

(** ** Validating and converting methods *)

(** X17.  [toBoolean] looks at strings, [null] and [undefined] only.  Any
    other value, the boolean [false] and the numbers 0 and [NaN] included,
    becomes [true] by [toBoolean()]; and any such value, [true] and 1
    included, becomes [false] by [toBoolean(true)]. *)
Theorem toBoolean_of_non_string (v strictTrue : val) :
  is_string v = false →
  is_nullish v = false →
  Validation.conversion (toBoolean strictTrue) v =
    Return (VBool (negb (ToBoolean strictTrue))).
Proof.
  intros Hs Hn. cbn [Validation.conversion].
  destruct v; try discriminate; by destruct (ToBoolean strictTrue).
Qed.

(** X18.  The validating methods for strings reject any other value.  The
    length tests and the tests of [ringo/utils/strings] for a shape fail on
    a value that is no string, whatever their arguments: on a number, on
    [undefined], on an object. *)
Theorem string_predicates_reject_non_strings (p : predicate) (v : val) :
  on_strings p = true →
  is_string v = false →
  Validation.condition p v = Return false.
Proof. intros Hp Hv. destruct p; try discriminate; by destruct v. Qed.

Lemma parseInt_NaN (R : Z) :
  2 ≤ R ≤ 36 →
  parseInt_string "NaN" (Z_to_float R) =
    if R <? 24 then nan else Z_to_float (23 * R * R + 10 * R + 23).
Proof.
  intros HR. assert (R ∈ seqZ 2 35) as Hin by (apply elem_of_seqZ; lia).
  clear HR. revert R Hin. apply Forall_forall.
  let l := eval vm_compute in (seqZ 2 35) in change (seqZ 2 35) with l.
  repeat (apply Forall_cons; split; [vm_compute; reflexivity|]). by apply Forall_nil.
Qed.

(** X19.  [toInt] on a string that is no integer.  For a string that
    [strings.isInt] rejects, [toInt(radix)] assigns [NaN] for a radix from 2
    to 23; for a radix from 24 to 36 it assigns the number that the text
    "NaN" is read as in that radix, [23 * radix^2 + 10 * radix + 23]. *)
Theorem toInt_of_rejected_string (str : string) (R : Z) :
  strings_isInt str = false →
  2 ≤ R ≤ 36 →
  Validation.conversion (toInt (VNum (Z_to_float R))) (VStr str) =
    Return (VNum (if R <? 24 then nan else Z_to_float (23 * R * R + 10 * R + 23))).
Proof.
  intros Hs HR. cbn [Validation.conversion]. rewrite Hs.
  assert (ToBoolean (VNum (Z_to_float R)) = true) as ->.
  { assert (R ∈ seqZ 2 35) as Hin by (apply elem_of_seqZ; lia).
    clear HR. revert R Hin. apply Forall_forall.
    let l := eval vm_compute in (seqZ 2 35) in change (seqZ 2 35) with l.
    repeat (apply Forall_cons; split; [vm_compute; reflexivity|]). by apply Forall_nil. }
  unfold parseInt, ToNumber. cbn [ToPrimitive ToNumber_primitive].
  change (ToString (VNum nan)) with "NaN". by rewrite parseInt_NaN.
Qed.

(** ** Keys without a validation *)

Lemma unvalidated_spec (s : State) :
  Validator.hasUnvalidatedProperties s = true ↔
  ∃ key, key ∈ dom (obj s) ∧ key ∉ dom (validations s).
Proof.
  unfold Validator.hasUnvalidatedProperties. rewrite !keys_length.
  destruct (size (dom (validations s)) <? size (dom (obj s)))%nat eqn:L.
  - split; [intros _|done]. apply Nat.ltb_lt in L.
    destruct (decide (dom (obj s) ∖ dom (validations s) = ∅)) as [Hempty|Hne].
    + assert (dom (obj s) ⊆ dom (validations s)) as Hsub by set_solver.
      apply subseteq_size in Hsub. lia.
    + apply set_choose_L in Hne as [key Hk]. exists key. set_solver.
  - rewrite existsb_exists. split.
    + intros (key & Hin & Hd). exists key.
      apply list_elem_of_In, keys_dom in Hin. apply bool_decide_eq_true in Hd.
      by rewrite keys_dom in Hd.
    + intros (key & Hin & Hd). exists key. split.
      * by apply list_elem_of_In, keys_dom.
      * apply bool_decide_eq_true. by rewrite keys_dom.
Qed.

(** X20.  [hasUnvalidatedProperties()] stays [false].  Once every key of the
    object has a validation, [hasUnvalidatedProperties()] is [false] for
    the rest of the session, whatever is called: a validation is replaced
    by a later one for its key, never removed. *)
Theorem hasUnvalidatedProperties_stays_false (o : gmap string val)
    (acts more : list action) :
  let s := run (Validator.new o) acts in
  Validator.hasUnvalidatedProperties s = false →
  Validator.hasUnvalidatedProperties (run s more) = false.
Proof.
  intros s Hf. destruct (session_inv o acts) as (W & _ & _). fold s in W.
  destruct (run_inv s more W) as (_ & O & D).
  apply not_true_is_false. intros (key & Hk & Hn)%unvalidated_spec.
  apply not_true_iff_false in Hf. apply Hf, unvalidated_spec.
  exists key. rewrite O in Hk. split; [done|]. rewrite D in Hn. set_solver.
Qed.

(** ** An own property [hasOwnProperty] *)

Lemma returns_hidden (o : gmap string val) (v : val) (key : string) :
  o !! "hasOwnProperty" = Some v → is_primitive v = true →
  hasOwnProperty Validator.call_value o key = Throw TypeError.
Proof. intros E Hv. unfold hasOwnProperty. rewrite E. by destruct v. Qed.

(** X21.  An own property [hasOwnProperty] of the object to validate that
    is a primitive value (a request parameter of that name, say) hides the
    method [addValidation] calls: every [validate] and [validateAll] of
    the session raises a [TypeError] and registers nothing.  So no key has
    a value, [getValues()] is empty, [hasFailures()] is [false] and
    [hasUnvalidatedProperties()] is [true], whatever was called. *)
Theorem own_hasOwnProperty_disables_validate (o : gmap string val) (v : val)
    (acts : list action) :
  o !! "hasOwnProperty" = Some v →
  is_primitive v = true →
  let s := run (Validator.new o) acts in
  validations s = ∅ ∧
  (∀ all name trim_, start all name trim_ s = (Throw TypeError, s)) ∧
  (∀ name, Validator.getValue (Some name) s = Throw TypeError) ∧
  Validator.getValues s = Return ∅ ∧
  Validator.hasFailures None s = Return false ∧
  Validator.hasUnvalidatedProperties s = true.
Proof.
  intros E Hv s. destruct (session_inv o acts) as (_ & O & D). fold s in O, D.
  assert (validations s = ∅) as Ev.
  { apply dom_empty_iff_L. rewrite D. apply set_eq. intros k.
    rewrite elem_of_returned. unfold Validator.returns.
    rewrite (returns_hidden o v k E Hv). set_solver. }
  split_and!; [done| | | | |].
  - intros all name trim_. by rewrite start_cases, O, (returns_hidden o v name E Hv).
  - intros name. unfold Validator.getValue. by rewrite Ev, lookup_empty.
  - unfold Validator.getValues. by rewrite Ev, map_to_list_empty.
  - unfold Validator.hasFailures. by rewrite Ev, map_to_list_empty.
  - apply unvalidated_spec. exists "hasOwnProperty". rewrite O, Ev.
    split; [apply elem_of_dom; eauto|set_solver].
Qed.

(** X22.  Once a call of [validate] or [validateAll] has returned for the
    key [hasOwnProperty], [this.validations.hasOwnProperty] is the
    [Validation] registered there: [hasFailures(name)] and
    [getMessages(name)] raise a [TypeError] for every name, and change
    nothing. *)
Theorem validated_hasOwnProperty_breaks_queries (o : gmap string val)
    (acts : list action) (name : string) :
  "hasOwnProperty" ∈ returned o acts →
  let s := run (Validator.new o) acts in
  Validator.hasFailures (Some name) s = Throw TypeError ∧
  Validator.getMessages (Some name) s = (Throw TypeError, s).
Proof.
  intros Hin s. destruct (session_inv o acts) as (_ & _ & D). fold s in D.
  assert (shadowed s = true) as Sh.
  { apply bool_decide_eq_true. apply elem_of_dom. by rewrite D. }
  split; [by apply hasFailures_shadowed|by apply getMessages_shadowed].
Qed.
End coverage.


(** * Runs on the example host *)

#[local] Existing Instance SampleHost.

(** C1, as stated, fails.  On [{"age": "15"}], [validate("age")] then
    [isAlpha("letters only")] fails and returns a [VoidValidation] holding
    "15"; [toInt()] on it returns the same chain and [getValue()] is still
    the string "15", where [toInt] on the [Validation] computes the number
    15. *)
Lemma void_chain_does_not_convert :
  let s := Validator.new {["age" := VStr "15"]} in
  let run1 := (c ← Validator.validate "age" VUndefined;
               invoke (H := SampleHost) c (Predicate isAlpha (VStr "letters only"))) s in
  let run2 := invoke (H := SampleHost) (Void (VStr "15")) (Sanitizer (toInt VUndefined)) run1.2 in
  run1.1 = Return (Void (VStr "15")) ∧
  run2 = (Return (Void (VStr "15")), run1.2) ∧
  (chain_getValue (Void (VStr "15")) run2.2).1 = Return (VStr "15") ∧
  Validation.conversion (H := SampleHost) (toInt VUndefined) (VStr "15")
    = Return (VNum 15%float) ∧
  VStr "15" ≠ VNum 15%float.
Proof. vm_compute. split_and!; [reflexivity..|discriminate]. Qed.

(** C2 on the test's object [{"foo": "bar"}]:
    [validate("foo").hasLength(4, "error msg").hasLength(5, "error msg 2")]. *)
Lemma validate_stops_at_first_failure_witness :
  let s := Validator.new {["foo" := VStr "bar"]} in
  let v := Validator.initial_value (obj s) "foo" VUndefined in
  (Validator.returns (obj s) "foo" = true ∧
   Validation.condition (H := SampleHost) (hasLength (VNum 4%float)) v = Return false ∧
   Validation.condition (H := SampleHost) (hasLength (VNum 5%float)) v = Return false) ∧
  ∃ this s0 s1,
    Validator.validate "foo" VUndefined s = (Return (Active this), s0) ∧
    invoke (H := SampleHost) (Active this)
      (Predicate (hasLength (VNum 4%float)) (VStr "error msg")) s0 = (Return (Void v), s1) ∧
    invoke (H := SampleHost) (Void v)
      (Predicate (hasLength (VNum 5%float)) (VStr "error msg 2")) s1 = (Return (Void v), s1) ∧
    recorded_for s1 "foo" = Some (false, [VStr "error msg"]) ∧
    Validator.hasFailures (Some "foo") s1 =
      (if shadowed s1 then Throw TypeError else Return true) ∧
    ∃ a, elements_at s1 a = Some [VStr "error msg"] ∧
         Validator.getMessages (H := SampleHost) (Some "foo") s1 =
           (if shadowed s1 then Throw TypeError else Return (MArray a), s1).
Proof.
  split; [split_and!; reflexivity|].
  apply (validate_stops_at_first_failure (H := SampleHost)
           (Validator.new {["foo" := VStr "bar"]}) "foo" VUndefined
           (hasLength (VNum 4%float)) (hasLength (VNum 5%float))
           (VStr "error msg") (VStr "error msg 2")); reflexivity.
Defined.

(** C3 on the same object:
    [validateAll("foo").hasLength(4, "error msg").hasLength(5, "error msg 2")]. *)
Lemma validateAll_collects_in_call_order_witness :
  let s := Validator.new {["foo" := VStr "bar"]} in
  let v := Validator.initial_value (obj s) "foo" VUndefined in
  (Validator.returns (obj s) "foo" = true ∧
   Validation.condition (H := SampleHost) (hasLength (VNum 4%float)) v = Return false ∧
   Validation.condition (H := SampleHost) (hasLength (VNum 5%float)) v = Return false) ∧
  ∃ this s0 s1 s2,
    Validator.validateAll "foo" VUndefined s = (Return (Active this), s0) ∧
    invoke (H := SampleHost) (Active this)
      (Predicate (hasLength (VNum 4%float)) (VStr "error msg")) s0
      = (Return (Active this), s1) ∧
    invoke (H := SampleHost) (Active this)
      (Predicate (hasLength (VNum 5%float)) (VStr "error msg 2")) s1
      = (Return (Active this), s2) ∧
    recorded_for s2 "foo" = Some (false, [VStr "error msg"; VStr "error msg 2"]) ∧
    Validator.hasFailures (Some "foo") s2 =
      (if shadowed s2 then Throw TypeError else Return true) ∧
    ∃ a, elements_at s2 a = Some [VStr "error msg"; VStr "error msg 2"] ∧
         Validator.getMessages (H := SampleHost) (Some "foo") s2 =
           (if shadowed s2 then Throw TypeError else Return (MArray a), s2).
Proof.
  split; [split_and!; reflexivity|].
  apply (validateAll_collects_in_call_order (H := SampleHost)
           (Validator.new {["foo" := VStr "bar"]}) "foo" VUndefined
           (hasLength (VNum 4%float)) (hasLength (VNum 5%float))
           (VStr "error msg") (VStr "error msg 2")); reflexivity.
Defined.

(** C4, as stated, fails.  On [{"f": ""}], [validate("f").optional()]
    leaves the value [undefined], not "", and a following [toInt()] does not
    run: the value stays [undefined], where [toInt] on the [Validation]
    would assign [NaN]. *)
Lemma optional_on_empty_string_gives_undefined :
  let s := Validator.new {["f" := VStr ""]} in
  let run1 := (c ← Validator.validate "f" VUndefined;
               invoke (H := SampleHost) c (optional VUndefined VUndefined)) s in
  run1.1 = Return (Void VUndefined) ∧
  (chain_getValue (Void VUndefined) run1.2).1 = Return VUndefined ∧
  Validator.getValue (Some "f") run1.2 = Return VUndefined ∧
  VUndefined ≠ VStr "" ∧
  invoke (H := SampleHost) (Void VUndefined) (Sanitizer (toInt VUndefined)) run1.2
    = (Return (Void VUndefined), run1.2) ∧
  Validation.conversion (H := SampleHost) (toInt VUndefined) VUndefined = Return (VNum nan).
Proof. vm_compute. split_and!; [reflexivity..|discriminate|reflexivity|reflexivity]. Qed.

(** C4 (amended) on [{"f": ""}] after [validate("f")]. *)
Lemma optional_on_empty_string_witness :
  let s0 := Validator.new {["f" := VStr ""]} in
  let s := (Validator.validate "f" VUndefined s0).2 in
  let this := new_this s0 in
  let V := mkValidation "f" (VStr "") true true (new_array s0) in
  (heap s !! this = Some (OValidation V) ∧ value V = VStr "" ∧
   strict_equal VUndefined (VBool true) = false) ∧
  ∃ u s',
    invoke (H := SampleHost) (Active this) (optional VUndefined VUndefined) s
      = (Return (Void u), s') ∧
    chain_getValue (Void u) s' = (Return u, s') ∧
    Validation.getValue this s' = (Return u, s') ∧
    recorded s' this = recorded s this ∧
    invoke_all (H := SampleHost) (Void u) [Predicate isAlpha (VStr "letters only")] s'
      = (Return (Void u), s') ∧
    invoke_all (H := SampleHost) (Void u) [Sanitizer (toInt VUndefined)] s'
      = (Return (Void u), s') ∧
    invoke_all (H := SampleHost) (Active this)
      [optional VUndefined VUndefined; Sanitizer (toInt VUndefined)] s
      = (Return (Void u), s').
Proof.
  intros s0 s this V. split; [split_and!; reflexivity|].
  apply (optional_on_empty_string (H := SampleHost) s this V
           VUndefined (VStr "letters only") VUndefined); reflexivity.
Defined.

(** C5 on the tests' objects: [validate("c").optional(4, true)] where [c] is
    absent, and [validate("d").optional("apply", true)] on [{"d": false}]. *)
Lemma strict_optional_witness :
  let s0 := Validator.new ∅ in
  let s := (Validator.validate "c" VUndefined s0).2 in
  let this := new_this s0 in
  let V := mkValidation "c" VUndefined true true (new_array s0) in
  let s' := assigned_state s this V (VNum 4%float) in
  let t0 := Validator.new {["d" := VBool false]} in
  let t := (Validator.validate "d" VUndefined t0).2 in
  let that := new_this t0 in
  let W := mkValidation "d" (VBool false) true true (new_array t0) in
  (heap s !! this = Some (OValidation V) ∧ heap t !! that = Some (OValidation W)) ∧
  (invoke (H := SampleHost) (Active this) (optional (VNum 4%float) (VBool true)) s
     = (Return (Void (VNum 4%float)), s') ∧
   chain_getValue (Void (VNum 4%float)) s' = (Return (VNum 4%float), s') ∧
   Validation.getValue this s' = (Return (VNum 4%float), s') ∧
   recorded s' this = recorded s this) ∧
  (invoke (H := SampleHost) (Active that) (optional (VStr "apply") (VBool true)) t
     = (Return (Active that), t) ∧
   Validation.getValue that t = (Return (VBool false), t)).
Proof.
  intros s0 s this V s' t0 t that W.
  split; [split; reflexivity|]. split.
  - apply (proj1 (strict_optional (H := SampleHost) s this V (VNum 4%float) eq_refl)).
    reflexivity.
  - apply (proj2 (strict_optional (H := SampleHost) t that W (VStr "apply") eq_refl)).
    discriminate.
Defined.

(** C6 on the test's session: [a] is validated, [c] is not. *)
Lemma never_validated_field_witness :
  let o : gmap string val := {["a" := VNum 1%float; "c" := VNum 3%float]} in
  let acts := [DoValidate "a" VUndefined] in
  let s := run (H := SampleHost) (Validator.new o) acts in
  ("c" ∉ validated acts) ∧
  Validator.hasFailures (Some "c") s =
    (if shadowed s then Throw TypeError else Return true) ∧
  Validator.getMessages (H := SampleHost) (Some "c") s =
    (if shadowed s then Throw TypeError
     else if on_prototype (Host := SampleHost) "c" then Return MUndefined
          else Throw TypeError, s) ∧
  ∀ a s', Validator.getMessages (H := SampleHost) (Some "c") s ≠ (Return (MArray a), s').
Proof.
  split; [vm_compute; intros [=]|].
  apply (never_validated_field (H := SampleHost)
           {["a" := VNum 1%float; "c" := VNum 3%float]}
           [DoValidate "a" VUndefined] "c").
  vm_compute. intros [=].
Defined.

(** C7, as stated, fails: [getValue("a")] in a session that never validated
    [a] raises a [TypeError]. *)
Lemma getValue_of_unvalidated_key_raises :
  Validator.getValue (Some "a") (Validator.new {["a" := VStr "x"]}) = Throw TypeError ∧
  Validator.getValue (Some "a") (Validator.new {["a" := VStr "x"]}) ≠ Return VUndefined.
Proof. split; [reflexivity|discriminate]. Qed.

(** C8 on the example host. *)
Lemma age_example_witness :
  (strings_isInt (Host := SampleHost) "19" = true ∧
   strings_isInt (Host := SampleHost) "15" = true) ∧
  (∃ c s, validate_age (H := SampleHost) (VStr "bad")
            (Validator.new {["age" := VStr "19"]}) = (Return c, s) ∧
          Validator.hasFailures None s = Return false ∧
          Validator.hasFailures (Some "age") s = Return false ∧
          recorded_for s "age" = Some (true, []) ∧
          Validator.getValue (Some "age") s = Return (VNum 19%float)) ∧
  (∃ c s, validate_age (H := SampleHost) (VStr "bad")
            (Validator.new {["age" := VStr "15"]}) = (Return c, s) ∧
          Validator.hasFailures None s = Return true ∧
          Validator.hasFailures (Some "age") s = Return true ∧
          recorded_for s "age" = Some (false, [VStr "too young"]) ∧
          Validator.getValue (Some "age") s = Return (VNum 15%float)).
Proof.
  split; [split; reflexivity|].
  apply (age_example (H := SampleHost) (VStr "bad")); reflexivity.
Defined.

(** ** Cases of the repository's tests *)

(** [testTrim]: [validate("foo", true).hasLength(3, ...)] passes on
    ["   bar       "], and without [trim] the length is 13. *)
Example trimmed_value_has_length_3 :
  let s := Validator.new {["foo" := VStr "   bar       "]} in
  let trimmed := (c ← Validator.validate "foo" (VBool true);
                  invoke (H := SampleHost) c
                    (Predicate (hasLength (VNum 3%float)) (VStr "error msg"))) s in
  let untrimmed := (c ← Validator.validate "foo" VUndefined;
                    invoke (H := SampleHost) c
                      (Predicate (hasLength (VNum 3%float)) (VStr "error msg"))) s in
  Validator.hasFailures (Some "foo") trimmed.2 = Return false ∧
  Validator.getValue (Some "foo") trimmed.2 = Return (VStr "bar") ∧
  Validator.hasFailures (Some "foo") untrimmed.2 = Return true ∧
  Validator.getValue (Some "foo") untrimmed.2 = Return (VStr "   bar       ").
Proof. vm_compute. split_and!; reflexivity. Qed.

(** [testSanitizers], [intEvil]: [toInt()] on "0123456", which is no
    integer literal, assigns [NaN], and [isNotNaN] then fails. *)
Example toInt_of_no_integer_literal :
  let s := Validator.new {["intEvil" := VStr "0123456"]} in
  let r := (c ← Validator.validate "intEvil" VUndefined;
            invoke_all (H := SampleHost) c
              [Sanitizer (toInt VUndefined); Predicate isNotNaN (VStr "isNotNaN")]) s in
  Validator.getValue (Some "intEvil") r.2 = Return (VNum nan) ∧
  recorded_for r.2 "intEvil" = Some (false, [VStr "isNotNaN"]).
Proof. vm_compute. split; reflexivity. Qed.

(** [testComplexValidObject]: [passes("asdf")] raises an [Error] and
    records nothing. *)
Example passes_of_no_function_raises :
  let s := Validator.new {["passes" := VStr "abcd"]} in
  let r := (c ← Validator.validate "passes" VUndefined;
            invoke (H := SampleHost) c
              (Predicate (passes (NotFunction (VStr "asdf"))) VUndefined)) s in
  r.1 = Throw (Error "Validator function argument is not a function!") ∧
  recorded_for r.2 "passes" = Some (true, []).
Proof. vm_compute. split; reflexivity. Qed.

(** [testOptionalWithDefault]: after [validate("d").optional(4)] on an
    object without [d], [toValue] is not run and [getValue("d")] is 4. *)
Example optional_default_is_kept :
  let s := Validator.new {["a" := VStr "1"; "b" := VNum 2%float]} in
  let r := (c ← Validator.validate "d" VUndefined;
            invoke_all (H := SampleHost) c
              [optional (VNum 4%float) VUndefined;
               Sanitizer (toValue (Function (λ _, Return (VNum (-1)%float))))]) s in
  r.1 = Return (Void (VNum 4%float)) ∧
  Validator.hasFailures (Some "d") r.2 = Return false ∧
  Validator.getValue (Some "d") r.2 = Return (VNum 4%float).
Proof. vm_compute. split_and!; reflexivity. Qed.

(** [testHasUncheckedProperties], the example of the documentation: one of
    two keys is validated. *)
Example additional_key_is_unvalidated :
  let s := Validator.new {["email" := VStr "foo.bar@example.com";
                           "additional_key" := VStr "value"]} in
  Validator.hasUnvalidatedProperties
    (run (H := SampleHost) s [DoValidate "email" VUndefined]) = true ∧
  Validator.hasUnvalidatedProperties
    (run (H := SampleHost) s
       [DoValidate "email" VUndefined; DoValidate "additional_key" VUndefined]) = false.
Proof. vm_compute. split; reflexivity. Qed.

(** ** More of the chain engine, on the example host *)

(** [hasLength(4, "error msg")] on the chain of [validate("foo")] over
    [{"foo": "bar"}] records its message. *)
Lemma call_records_witness :
  let s := (Validator.validate "foo" VUndefined (Validator.new foo_object)).2 in
  let V := mkValidation "foo" (VStr "bar") true true (new_array (Validator.new foo_object)) in
  let m := Predicate (hasLength (VNum 4%float)) (VStr "error msg") in
  (heap s !! foo_chain = Some (OValidation V) ∧
   heap s !! messages V = Some (OArray [])) ∧
  recorded (invoke (H := SampleHost) (Active foo_chain) m s).2 foo_chain =
    Some (match recorded_message (H := SampleHost) m (value V) with
          | Some message => (false, [] ++ [message])
          | None => (isValid V, [])
          end).
Proof.
  intros s V m. split; [split; reflexivity|].
  apply (call_records (H := SampleHost) s foo_chain V [] m); reflexivity.
Defined.

(** [passes("asdf")] on that chain raises. *)
Lemma only_callbacks_raise_witness :
  let s := (Validator.validate "foo" VUndefined (Validator.new foo_object)).2 in
  let V := mkValidation "foo" (VStr "bar") true true (new_array (Validator.new foo_object)) in
  let m := Predicate (passes (NotFunction (VStr "asdf"))) (VStr "error msg") in
  let ex := Error "Validator function argument is not a function!" in
  (heap s !! foo_chain = Some (OValidation V) ∧
   heap s !! messages V = Some (OArray []) ∧
   invoke (H := SampleHost) (Active foo_chain) m s = (Throw ex, s)) ∧
  s = s ∧
  ∃ func, ((∃ message, m = Predicate (passes func) message) ∨ m = Sanitizer (toValue func)) ∧
    match func with
    | NotFunction _ => ex = Error "Validator function argument is not a function!"
    | Function f => f (value V) = Throw ex
    end.
Proof.
  intros s V m ex. split; [split_and!; reflexivity|].
  apply (only_callbacks_raise (H := SampleHost) s s foo_chain V [] m ex); reflexivity.
Defined.

(** [validate("foo").hasLength(3, ..).hasLength(4, ..).hasLength(5, ..)] on
    [{"foo": "bar"}] records the message of the second call. *)
Lemma validate_records_first_failure_witness :
  let s := Validator.new foo_object in
  let pms := [(hasLength (VNum 3%float), VStr "no error");
              (hasLength (VNum 4%float), VStr "error msg");
              (hasLength (VNum 5%float), VStr "error msg 2")] in
  let v := Validator.initial_value (obj s) "foo" VUndefined in
  (Validator.returns (obj s) "foo" = true ∧ decided (H := SampleHost) v pms) ∧
  ∃ c s',
    (c0 ← Validator.validate "foo" VUndefined;
     invoke_all (H := SampleHost) c0 (validating_calls pms)) s = (Return c, s') ∧
    recorded_for s' "foo" =
      Some (if failures (H := SampleHost) v pms is [] then true else false,
            take 1 (failures (H := SampleHost) v pms)) ∧
    (c = Void v ∨ failures (H := SampleHost) v pms = []) ∧
    Validator.getValue (Some "foo") s' = Return v.
Proof.
  intros s pms v.
  assert (decided (H := SampleHost) v pms) as Hd
    by (repeat (apply Forall_cons_2; [eexists; reflexivity|]); apply Forall_nil_2).
  split; [split; [reflexivity|exact Hd]|].
  exact (validate_records_first_failure (H := SampleHost) s "foo" VUndefined pms
           eq_refl Hd).
Defined.

(** The same calls after [validateAll("foo")] record two messages. *)
Lemma validateAll_records_every_failure_witness :
  let s := Validator.new foo_object in
  let pms := [(hasLength (VNum 3%float), VStr "no error");
              (hasLength (VNum 4%float), VStr "error msg");
              (hasLength (VNum 5%float), VStr "error msg 2")] in
  let v := Validator.initial_value (obj s) "foo" VUndefined in
  (Validator.returns (obj s) "foo" = true ∧ decided (H := SampleHost) v pms) ∧
  ∃ this s',
    (c0 ← Validator.validateAll "foo" VUndefined;
     invoke_all (H := SampleHost) c0 (validating_calls pms)) s
      = (Return (Active this), s') ∧
    recorded_for s' "foo" =
      Some (if failures (H := SampleHost) v pms is [] then true else false,
            failures (H := SampleHost) v pms) ∧
    Validator.getValue (Some "foo") s' = Return v.
Proof.
  intros s pms v.
  assert (decided (H := SampleHost) v pms) as Hd
    by (repeat (apply Forall_cons_2; [eexists; reflexivity|]); apply Forall_nil_2).
  split; [split; [reflexivity|exact Hd]|].
  exact (validateAll_records_every_failure (H := SampleHost) s "foo" VUndefined pms
           eq_refl Hd).
Defined.

(** The chain of the README on [{"age": "15"}] returns a [VoidValidation]
    with the number 15, which is [getValue("age")]. *)
Lemma chain_value_is_field_value_witness :
  let s := Validator.new {["age" := VStr "15"]} in
  let ms := [Predicate isInt (VStr "no int"); Sanitizer (toInt VUndefined);
             Predicate (isGreaterThan (VNum 17%float)) (VStr "too young")] in
  let r := (c0 ← start false "age" VUndefined; invoke_all (H := SampleHost) c0 ms) s in
  r = (Return (Void (VNum 15%float)), r.2) ∧
  ∃ v, chain_getValue (Void (VNum 15%float)) r.2 = (Return v, r.2) ∧
       Validator.getValue (Some "age") r.2 = Return v.
Proof.
  intros s ms r. split; [reflexivity|].
  apply (chain_value_is_field_value (H := SampleHost) s false "age" VUndefined ms).
  reflexivity.
Defined.

(** The failure of [foo_session] is still there after [getMessages()] and
    a second [validate("foo")]. *)
Lemma chain_history_is_kept_witness :
  let s := run (H := SampleHost) (Validator.new foo_object) foo_session in
  let more := [DoGetMessages None; DoValidate "foo" VUndefined] in
  recorded s foo_chain = Some (false, [VStr "error msg"]) ∧
  ∃ b' e', recorded (run (H := SampleHost) s more) foo_chain = Some (b', e') ∧
           (false = false → b' = false) ∧
           (existsb assigns more = false → [VStr "error msg"] `prefix_of` e').
Proof.
  intros s more. split; [reflexivity|].
  apply (chain_history_is_kept (H := SampleHost) foo_object foo_session more foo_chain).
  reflexivity.
Defined.

Lemma isValid_iff_no_message_witness :
  let s := run (H := SampleHost) (Validator.new foo_object) foo_session in
  (existsb assigns foo_session = false ∧
   recorded s foo_chain = Some (false, [VStr "error msg"])) ∧
  (false = true ↔ [VStr "error msg"] = []).
Proof.
  intros s. split; [split; reflexivity|].
  apply (isValid_iff_no_message (H := SampleHost) foo_object foo_session foo_chain);
    reflexivity.
Defined.

Lemma getMessages_of_validated_key_witness :
  let s := run (H := SampleHost) (Validator.new foo_object) foo_session in
  (existsb assigns foo_session = false ∧ "foo" ∈ returned foo_object foo_session ∧
   "hasOwnProperty" ∉ returned foo_object foo_session) ∧
  ∃ e a s',
    recorded_for s "foo" = Some (bool_decide (e = []), e) ∧
    Validator.hasFailures (Some "foo") s = Return (negb (bool_decide (e = []))) ∧
    Validator.getMessages (H := SampleHost) (Some "foo") s = (Return (MArray a), s') ∧
    elements_at s' a = Some e ∧
    ∀ key, recorded_for s' key = recorded_for s key.
Proof.
  intros s.
  assert ("foo" ∈ returned foo_object foo_session) as Hin by (by vm_compute).
  assert ("hasOwnProperty" ∉ returned foo_object foo_session) as Hh
    by (vm_compute; intros [=]).
  split; [split_and!; [reflexivity|exact Hin|exact Hh]|].
  exact (getMessages_of_validated_key (H := SampleHost) foo_object foo_session "foo"
           eq_refl Hin Hh).
Defined.

(** The chains of [a] and [b] in [ab_session]. *)
Lemma fields_share_nothing_witness :
  let s := run (H := SampleHost) (Validator.new ab_object) ab_session in
  ("a" ≠ "b" ∧ validations s !! "a" = Some a_chain ∧ validations s !! "b" = Some b_chain) ∧
  a_chain ≠ b_chain ∧
  ∃ V1 V2, heap s !! a_chain = Some (OValidation V1) ∧
           heap s !! b_chain = Some (OValidation V2) ∧
           key V1 = "a" ∧ key V2 = "b" ∧ messages V1 ≠ messages V2.
Proof.
  intros s.
  assert ("a" ≠ "b") as N by discriminate.
  split; [split_and!; [exact N|reflexivity..]|].
  exact (fields_share_nothing (H := SampleHost) ab_object ab_session "a" "b"
           a_chain b_chain N eq_refl eq_refl).
Defined.

(** [isInt] on the chain of [a] leaves [b] alone. *)
Lemma call_leaves_other_fields_witness :
  let s := run (H := SampleHost) (Validator.new ab_object) ab_session in
  let m := Predicate isAlpha (VStr "letters only") in
  let s' := (invoke (H := SampleHost) (Active a_chain) m s).2 in
  validations s !! "b" ≠ Some a_chain ∧
  recorded_for s' "b" = recorded_for s "b" ∧
  Validator.getValue (Some "b") s' = Validator.getValue (Some "b") s ∧
  Validator.hasFailures (Some "b") s' = Validator.hasFailures (Some "b") s.
Proof.
  intros s m s'.
  assert (validations s !! "b" ≠ Some a_chain) as N by (vm_compute; discriminate).
  split; [exact N|].
  exact (call_leaves_other_fields (H := SampleHost) ab_object ab_session a_chain "b" m N).
Defined.

(** After [foo_session], a second [validate("foo")]. *)
Lemma validate_again_starts_anew_witness :
  let s := run (H := SampleHost) (Validator.new foo_object) foo_session in
  let m := Predicate (hasLength (VNum 5%float)) (VStr "error msg 2") in
  let r := start false "foo" VUndefined s in
  validations s !! "foo" = Some foo_chain ∧
  (∃ this, r.1 = Return (Active this) ∧ this ≠ foo_chain) ∧
  recorded_for r.2 "foo" = Some (true, []) ∧
  Validator.getValue (Some "foo") r.2
    = Return (Validator.initial_value foo_object "foo" VUndefined) ∧
  recorded r.2 foo_chain = recorded s foo_chain ∧
  (∀ key, key ≠ "foo" → recorded_for r.2 key = recorded_for s key) ∧
  let s2 := (invoke (H := SampleHost) (Active foo_chain) m r.2).2 in
  recorded_for s2 "foo" = Some (true, []) ∧
  Validator.getValue (Some "foo") s2
    = Return (Validator.initial_value foo_object "foo" VUndefined).
Proof.
  intros s m r. split; [reflexivity|].
  exact (validate_again_starts_anew (H := SampleHost) foo_object foo_session "foo"
           VUndefined false foo_chain m eq_refl).
Defined.


(** [toBoolean()] of [false] is [true]. *)
Lemma toBoolean_of_non_string_witness :
  (is_string (VBool false) = false ∧ is_nullish (VBool false) = false) ∧
  Validation.conversion (H := SampleHost) (toBoolean VUndefined) (VBool false) =
    Return (VBool (negb (ToBoolean VUndefined))).
Proof.
  split; [split; reflexivity|].
  exact (toBoolean_of_non_string (H := SampleHost) (VBool false) VUndefined
           eq_refl eq_refl).
Defined.

(** [hasLength(3)] on the number 123. *)
Lemma string_predicates_reject_non_strings_witness :
  (on_strings (hasLength (VNum 3%float)) = true ∧ is_string (VNum 123%float) = false) ∧
  Validation.condition (H := SampleHost) (hasLength (VNum 3%float)) (VNum 123%float)
    = Return false.
Proof.
  split; [split; reflexivity|].
  exact (string_predicates_reject_non_strings (H := SampleHost)
           (hasLength (VNum 3%float)) (VNum 123%float) eq_refl eq_refl).
Defined.

(** [toInt(36)] on "zz", which [isInt] rejects, gives 30191. *)
Lemma toInt_of_rejected_string_witness :
  (strings_isInt (Host := SampleHost) "zz" = false ∧ 2 ≤ 36 ≤ 36) ∧
  Validation.conversion (H := SampleHost) (toInt (VNum (Z_to_float 36))) (VStr "zz") =
    Return (VNum (if 36 <? 24 then nan else Z_to_float (23 * 36 * 36 + 10 * 36 + 23))) ∧
  Z_to_float (23 * 36 * 36 + 10 * 36 + 23) = 30191%float.
Proof.
  assert (2 ≤ 36 ≤ 36) as HR by lia.
  split; [split; [reflexivity|exact HR]|]. split; [|reflexivity].
  exact (toInt_of_rejected_string (H := SampleHost) "zz" 36 eq_refl HR).
Defined.

(** After [ab_session], a second [validate("a")] and a failing call. *)
Lemma hasUnvalidatedProperties_stays_false_witness :
  let s := run (H := SampleHost) (Validator.new ab_object) ab_session in
  let more := [DoValidate "a" (VBool true);
               DoCall (Active a_chain) (Predicate isAlpha (VStr "letters only"))] in
  Validator.hasUnvalidatedProperties s = false ∧
  Validator.hasUnvalidatedProperties (run (H := SampleHost) s more) = false.
Proof.
  intros s more. split; [reflexivity|].
  exact (hasUnvalidatedProperties_stays_false (H := SampleHost) ab_object ab_session more
           eq_refl).
Defined.

(** ** More cases of the repository's tests *)

(** [testValidate]: three chained expressions on the same key, each
    starting anew: no message, then one, then two. *)
Example validate_three_times :
  let s0 := Validator.new foo_object in
  let first := (c ← Validator.validate "foo" VUndefined;
                invoke_all (H := SampleHost) c
                  [Predicate (hasLength (VNum 3%float)) (VStr "error msg")]) s0 in
  let second := (c ← Validator.validate "foo" VUndefined;
                 invoke_all (H := SampleHost) c
                   [Predicate (hasLength (VNum 4%float)) (VStr "error msg");
                    Predicate (hasLength (VNum 5%float)) (VStr "error msg 2")]) first.2 in
  let third := (c ← Validator.validateAll "foo" VUndefined;
                invoke_all (H := SampleHost) c
                  [Predicate (hasLength (VNum 4%float)) (VStr "error msg");
                   Predicate (hasLength (VNum 5%float)) (VStr "error msg 2")]) second.2 in
  Validator.hasFailures None first.2 = Return false ∧
  recorded_for first.2 "foo" = Some (true, []) ∧
  Validator.hasFailures None second.2 = Return true ∧
  recorded_for second.2 "foo" = Some (false, [VStr "error msg"]) ∧
  Validator.hasFailures None third.2 = Return true ∧
  recorded_for third.2 "foo" = Some (false, [VStr "error msg"; VStr "error msg 2"]).
Proof. vm_compute. split_and!; reflexivity. Qed.

(** The limit of one message holds for a chained expression, not for the
    [Validation] itself: with [var c = validator.validate("foo")], the
    calls [c.hasLength(4, ...)] and [c.hasLength(5, ...)] record two. *)
Example chain_called_twice_records_twice :
  let s := run (H := SampleHost) (Validator.new foo_object)
             (foo_session ++
              [DoCall (Active foo_chain)
                 (Predicate (hasLength (VNum 5%float)) (VStr "error msg 2"))]) in
  recorded_for s "foo" = Some (false, [VStr "error msg"; VStr "error msg 2"]).
Proof. vm_compute. reflexivity. Qed.

(** [testHasValue]: [hasValue] fails on [null], [undefined] and "". *)
Example hasValue_of_nothing :
  Validation.condition (H := SampleHost) hasValue VNull = Return false ∧
  Validation.condition (H := SampleHost) hasValue VUndefined = Return false ∧
  Validation.condition (H := SampleHost) hasValue (VStr "") = Return false ∧
  Validation.condition (H := SampleHost) hasValue (VStr "x") = Return true ∧
  Validation.condition (H := SampleHost) hasValue (VNum 0%float) = Return true.
Proof. vm_compute. split_and!; reflexivity. Qed.

(** [testMiddleware], the POST request: the parameters are those of the
    body, [fooTrim] is trimmed, nothing fails and [int] is still the
    string. *)
Example middleware_post_request :
  let req := mkRequest (VStr "POST")
               {["foo" := VStr "bar"; "fooTrim" := VStr "   bar  "; "int" := VStr "12345"]}
               ∅ in
  let handler :=
    c1 ← Middleware.validate "foo" VUndefined;
    invoke (H := SampleHost) c1 (Predicate (hasLength (VNum 3%float)) (VStr "not bar"));;
    c2 ← Middleware.validate "fooTrim" (VBool true);
    invoke (H := SampleHost) c2 (Predicate (hasLength (VNum 3%float)) (VStr "not bar trim"));;
    c3 ← Middleware.validate "int" VUndefined;
    invoke (H := SampleHost) c3 (Predicate isInt (VStr "not an int")) in
  let s := (handler (Middleware.validator req)).2 in
  Validator.getValue (Some "int") s = Return (VStr "12345") ∧
  Validator.getValue (Some "fooTrim") s = Return (VStr "bar") ∧
  Middleware.hasFailures None s = Return false ∧
  (∃ a s', Middleware.failureMessages (H := SampleHost) (Some "foo") s = (Return (MArray a), s') ∧
           elements_at s' a = Some []) ∧
  (∃ a s', Middleware.failureMessages (H := SampleHost) (Some "int") s = (Return (MArray a), s') ∧
           elements_at s' a = Some []).
Proof. vm_compute. split_and!; [reflexivity..| |]; eexists _, _; split; reflexivity. Qed.

(** The GET request: the parameters are those of the query string, and
    [validateAll] of the middleware collects as that of the [Validator]. *)
Example middleware_get_request :
  let req := mkRequest (VStr "GET") ∅
               {["foo" := VStr "bar"; "fooTrim" := VStr "bar"; "int" := VStr "12345"]} in
  let handler :=
    c1 ← Middleware.validateAll "foo" VUndefined;
    invoke_all (H := SampleHost) c1
      [Predicate (hasLength (VNum 4%float)) (VStr "not bar");
       Predicate isInt (VStr "not an int")] in
  let s := (handler (Middleware.validator req)).2 in
  Validator.getValue (Some "foo") s = Return (VStr "bar") ∧
  Middleware.hasFailures (Some "int") s = Return true ∧
  recorded_for s "foo" = Some (false, [VStr "not bar"; VStr "not an int"]).
Proof. vm_compute. split_and!; reflexivity. Qed.

(** ** The key [hasOwnProperty] *)

(** On [{"hasOwnProperty": "x", "foo": "bar"}], after [validate("foo")]. *)
Lemma own_hasOwnProperty_disables_validate_witness :
  let acts := [DoValidate "foo" VUndefined] in
  let s := run (Validator.new hidden_object) acts in
  (hidden_object !! "hasOwnProperty" = Some (VStr "x") ∧ is_primitive (VStr "x") = true) ∧
  validations s = ∅ ∧
  (∀ all name trim_, start all name trim_ s = (Throw TypeError, s)) ∧
  (∀ name, Validator.getValue (Some name) s = Throw TypeError) ∧
  Validator.getValues s = Return ∅ ∧
  Validator.hasFailures None s = Return false ∧
  Validator.hasUnvalidatedProperties s = true.
Proof.
  intros acts s. split; [split; reflexivity|].
  exact (own_hasOwnProperty_disables_validate hidden_object (VStr "x") acts
           eq_refl eq_refl).
Defined.

(** After [validate("hasOwnProperty")] on the object of
    [testHashIsNotAnObject], [hasFailures("a")]. *)
Lemma validated_hasOwnProperty_breaks_queries_witness :
  let s := run (Validator.new hash_object) hash_session in
  "hasOwnProperty" ∈ returned hash_object hash_session ∧
  Validator.hasFailures (Some "a") s = Throw TypeError ∧
  Validator.getMessages (Some "a") s = (Throw TypeError, s).
Proof.
  intros s.
  assert ("hasOwnProperty" ∈ returned hash_object hash_session) as Hin by (by vm_compute).
  split; [exact Hin|].
  exact (validated_hasOwnProperty_breaks_queries hash_object hash_session "a" Hin).
Defined.

(** [testHashIsNotAnObject]: the value [validate("hasOwnProperty")] starts
    with is [undefined], not the inherited function, and the chain is
    registered under that key. *)
Example hasOwnProperty_key_starts_undefined :
  let r := Validator.validate "hasOwnProperty" VUndefined (Validator.new hash_object) in
  r.1 = Return (Active (new_this (Validator.new hash_object))) ∧
  Validator.getValue (Some "hasOwnProperty") r.2 = Return VUndefined ∧
  shadowed r.2 = true ∧
  Validator.hasFailures None r.2 = Return false.
Proof. vm_compute. split_and!; reflexivity. Qed.

(** On [{"hasOwnProperty": "x", "foo": "bar"}] the chained expression
    [validate("foo").hasLength(4, ...)] raises before any chain is there,
    and [validate("hasOwnProperty")] leaves [hasUnvalidatedProperties()]
    [true]. *)
Example validate_raises_on_hidden_object :
  let s := Validator.new hidden_object in
  let r := (c ← Validator.validate "foo" VUndefined;
            invoke c (Predicate (hasLength (VNum 4%float)) (VStr "error msg"))) s in
  r = (Throw TypeError, s) ∧
  recorded_for r.2 "foo" = None ∧
  Validator.hasUnvalidatedProperties
    (run s [DoValidate "hasOwnProperty" VUndefined; DoValidate "foo" VUndefined]) = true.
Proof. vm_compute. split_and!; reflexivity. Qed.
